(** * Marketplace routing and link validation

    A shallow embedding of [src/services/url_builder.py] and
    [src/services/link_validator.py], with the record types of
    [src/models/responses.py], and the properties of the link builder and
    of the link validator proved over it.

    Python text ([str]) is a sequence of Unicode code points; bytes are
    numbers below 256.  Python exceptions are values of [exn], and a
    function that can raise returns a [result]. *)

From Stdlib Require Import NArith ZArith QArith Lia String Ascii.
From stdpp Require Import base option list gmap.

Local Open Scope N_scope.

(** ** Exceptions and results *)

(** The exception classes the two services can meet.  Every class but
    [CancelledError] derives from Python's [Exception]; [CancelledError]
    derives from [BaseException] only. *)
Inductive exn : Set :=
| TimeoutException
| ConnectError
| HTTPStatusError
| UnicodeEncodeError
| ValidationError
| FormatError
| OtherException (tag : N)
| CancelledError.

Inductive result (A : Type) : Type :=
| Ok (a : A)
| Raise (e : exn).
Arguments Ok {A} a.
Arguments Raise {A} e.

#[global] Instance result_ret : MRet result := fun A a => Ok a.
#[global] Instance result_fmap : FMap result := fun A B f m =>
  match m with
  | Ok a => Ok (f a)
  | Raise e => Raise e
  end.
#[global] Instance result_bind : MBind result := fun A B f m =>
  match m with
  | Ok a => f a
  | Raise e => Raise e
  end.

(** [isinstance(e, httpx.TimeoutException)] *)
Definition is_TimeoutException (e : exn) : bool :=
  match e with
  | TimeoutException => true
  | _ => false
  end.

(** [isinstance(e, Exception)] *)
Definition is_Exception (e : exn) : bool :=
  match e with
  | CancelledError => false
  | _ => true
  end.

(** ** Text *)

Module Text.

(** A Python [str]: its code points, in order. *)
Abbreviation str := (list N) (only parsing).

(** A Unicode scalar value: a code point that is not a surrogate.  These
    are the code points UTF-8 can carry. *)
Definition scalar_value (c : N) : Prop :=
  c < 0xD800 ∨ (0xDFFF < c ∧ c ≤ 0x10FFFF).

Definition scalar_valueb (c : N) : bool :=
  (c <? 0xD800) || ((0xDFFF <? c) && (c <=? 0x10FFFF)).

(** Valid Unicode text: every code point is a scalar value. *)
Definition valid_text (s : str) : Prop := Forall scalar_value s.

(** A byte. *)
Definition is_byte (b : N) : Prop := b < 256.

(** The UTF-8 bytes of one code point, [UnicodeEncodeError] on a surrogate
    ([str.encode('utf-8', 'strict')]). *)
Definition utf8_encode_cp (c : N) : result (list N) :=
  if c <? 0x80 then Ok [c]
  else if c <? 0x800 then Ok [0xC0 + c / 64; 0x80 + c mod 64]
  else if (0xD800 <=? c) && (c <=? 0xDFFF) then Raise UnicodeEncodeError
  else if c <? 0x10000 then
    Ok [0xE0 + c / 4096; 0x80 + (c / 64) mod 64; 0x80 + c mod 64]
  else
    Ok [0xF0 + c / 262144; 0x80 + (c / 4096) mod 64;
        0x80 + (c / 64) mod 64; 0x80 + c mod 64].

Fixpoint utf8_encode (s : str) : result (list N) :=
  match s with
  | [] => Ok []
  | c :: s' =>
      bs ← utf8_encode_cp c;
      bs' ← utf8_encode s';
      mret (bs ++ bs')
  end.

(** A continuation byte, [10xxxxxx]. *)
Definition is_continuation (b : N) : bool := (0x80 <=? b) && (b <? 0xC0).

(** Strict UTF-8 decoding: [None] on a byte sequence that is not
    well-formed UTF-8 (a stray continuation byte, a truncated or overlong
    sequence, an encoded surrogate, a value above U+10FFFF). *)
Fixpoint utf8_decode (bs : list N) : option str :=
  match bs with
  | [] => Some []
  | b0 :: bs1 =>
      if b0 <? 0x80 then cons b0 <$> utf8_decode bs1
      else if b0 <? 0xC2 then None
      else if b0 <? 0xE0 then
        match bs1 with
        | b1 :: bs2 =>
            if is_continuation b1
            then cons ((b0 - 0xC0) * 64 + (b1 - 0x80)) <$> utf8_decode bs2
            else None
        | _ => None
        end
      else if b0 <? 0xF0 then
        match bs1 with
        | b1 :: b2 :: bs3 =>
            let c := (b0 - 0xE0) * 4096 + (b1 - 0x80) * 64 + (b2 - 0x80) in
            if is_continuation b1 && is_continuation b2
               && (0x800 <=? c) && negb ((0xD800 <=? c) && (c <=? 0xDFFF))
            then cons c <$> utf8_decode bs3
            else None
        | _ => None
        end
      else if b0 <? 0xF5 then
        match bs1 with
        | b1 :: b2 :: b3 :: bs4 =>
            let c := (b0 - 0xF0) * 262144 + (b1 - 0x80) * 4096
                     + (b2 - 0x80) * 64 + (b3 - 0x80) in
            if is_continuation b1 && is_continuation b2 && is_continuation b3
               && (0x10000 <=? c) && (c <=? 0x10FFFF)
            then cons c <$> utf8_decode bs4
            else None
        | _ => None
        end
      else None
  end.

(** The bytes of a Rocq string literal. *)
Fixpoint bytes_of_string (s : string) : list N :=
  match s with
  | EmptyString => []
  | String a s' => N_of_ascii a :: bytes_of_string s'
  end.

(** A Python string literal, written as the UTF-8 text of a Rocq string. *)
Definition lit (s : string) : str := default [] (utf8_decode (bytes_of_string s)).

(** [needle in hay] at the front of [hay]: [hay.startswith(needle)]. *)
Fixpoint startswith (needle hay : str) : bool :=
  match needle, hay with
  | [], _ => true
  | _ :: _, [] => false
  | a :: needle', b :: hay' => (a =? b) && startswith needle' hay'
  end.

(** The substring test [needle in hay]. *)
Fixpoint contains (needle hay : str) : bool :=
  startswith needle hay ||
  match hay with
  | [] => false
  | _ :: hay' => contains needle hay'
  end.

(** [str.lower()] on one code point of the Basic Latin and Latin-1
    Supplement blocks: A-Z and the capital letters U+00C0..U+00DE (the
    multiplication sign U+00D7 apart) move 32 places up.  The case tables
    of the other blocks are not reproduced: such a code point is kept. *)
Definition lower_cp (c : N) : N :=
  if (0x41 <=? c) && (c <=? 0x5A) then c + 32
  else if (0xC0 <=? c) && (c <=? 0xDE) && negb (c =? 0xD7) then c + 32
  else c.

Definition lower (s : str) : str := map lower_cp s.

End Text.
Export Text.


(** ** Response models ([src/models/responses.py]) *)

Module Models.

(** [SearchQuery]: one search phrase produced by the vision analysis. *)
Record SearchQuery : Type := {
  sq_query : str;
  sq_confidence : Q;
}.

(** [MarketplaceLink]: a marketplace search link. *)
Record MarketplaceLink : Type := {
  marketplace : str;
  query : str;
  url : str;
}.

(** [VisionAnalysisResult]: the classification of one image. *)
Record VisionAnalysisResult : Type := {
  object_type : str;
  description : str;
  search_queries : list SearchQuery;
  confidence : Q;
}.

(** The values of [MarketplaceLink.marketplace]'s [Literal] type. *)
Definition marketplace_literals : list str :=
  [lit "abebooks"; lit "vinted"; lit "leboncoin"].

(** The constructor call [MarketplaceLink(marketplace=.., query=.., url=..)]:
    pydantic validates the fields and raises on a marketplace outside the
    literal type. *)
Definition new_MarketplaceLink (m q u : str) : result MarketplaceLink :=
  if bool_decide (m ∈ marketplace_literals)
  then Ok {| marketplace := m; query := q; url := u |}
  else Raise ValidationError.

End Models.
Export Models.

(** ** The link builder ([src/services/url_builder.py]) *)

Module UrlBuilder.

(** Marketplace URL templates, by category. *)
Definition MARKETPLACE_URLS : gmap str (str * str) :=
  <[lit "book" :=
      (lit "abebooks",
       lit "https://www.abebooks.fr/servlet/SearchResults?kn={query}&sts=t")]>
  (<[lit "clothing" :=
      (lit "vinted", lit "https://www.vinted.fr/catalog?search_text={query}")]>
   ∅).

(** Default marketplace for categories not in [MARKETPLACE_URLS]. *)
Definition DEFAULT_MARKETPLACE : str * str :=
  (lit "leboncoin", lit "https://www.leboncoin.fr/recherche?text={query}").

(** [MARKETPLACE_URLS.get(object_type, DEFAULT_MARKETPLACE)] *)
Definition get_marketplace_for_type (object_type : str) : str * str :=
  default DEFAULT_MARKETPLACE (MARKETPLACE_URLS !! object_type).

(** [urllib.parse]'s always-safe bytes: letters, digits and [_.-~]. *)
Definition always_safe (b : N) : bool :=
  ((0x41 <=? b) && (b <=? 0x5A)) || ((0x61 <=? b) && (b <=? 0x7A))
  || ((0x30 <=? b) && (b <=? 0x39))
  || (b =? 0x5F) || (b =? 0x2E) || (b =? 0x2D) || (b =? 0x7E).

(** The upper-case hexadecimal digit of a number below 16. *)
Definition hex_digit (n : N) : N := if n <? 10 then 0x30 + n else 0x37 + n.

(** ['%{:02X}'.format(b)] *)
Definition percent_escape (b : N) : str :=
  [0x25; hex_digit (b / 16); hex_digit (b mod 16)].

(** One byte quoted with no extra safe character: itself when always
    safe, else its escape. *)
Definition quoter (b : N) : str :=
  if always_safe b then [b] else percent_escape b.

(** [quote_from_bytes(bs, safe="")] *)
Definition quote_from_bytes (bs : list N) : str := mjoin (quoter <$> bs).

(** [urllib.parse.quote(string, safe="")]: the text is encoded to UTF-8
    (strict) and each byte is quoted. *)
Definition quote (string : str) : result str :=
  bs ← utf8_encode string;
  mret (quote_from_bytes bs).

Definition encode_query (query : str) : result str := quote query.

(** [url_template.format(query=value)].  Literal text is copied, [{{] and
    [}}] give one brace, the field [{query}] gives [value].  Any other
    use of a brace (another field name, a lone brace) raises in Python
    ([KeyError], [IndexError], [ValueError]): [FormatError] here.
    Conversions and format specifications inside a field are not
    modelled and count as another field. *)
Fixpoint format_query (template value : str) : result str :=
  match template with
  | [] => Ok []
  | c :: rest =>
      if c =? 0x7B then
        match rest with
        | c1 :: rest1 =>
            if c1 =? 0x7B then cons 0x7B <$> format_query rest1 value
            else
              match rest1 with
              | c2 :: c3 :: c4 :: c5 :: c6 :: rest6 =>
                  if bool_decide ([c1; c2; c3; c4; c5; c6] = lit "query}")
                  then app value <$> format_query rest6 value
                  else Raise FormatError
              | _ => Raise FormatError
              end
        | [] => Raise FormatError
        end
      else if c =? 0x7D then
        match rest with
        | c1 :: rest1 =>
            if c1 =? 0x7D then cons 0x7D <$> format_query rest1 value
            else Raise FormatError
        | [] => Raise FormatError
        end
      else cons c <$> format_query rest value
  end.

Definition build_marketplace_link
    (marketplace_name url_template query : str) : result MarketplaceLink :=
  encoded_query ← encode_query query;
  url ← format_query url_template encoded_query;
  new_MarketplaceLink marketplace_name query url.

(** The slice [xs[:n]]: the first [n] items, and all but the last [-n]
    when [n] is negative. *)
Definition slice_to {A} (xs : list A) (n : Z) : list A :=
  if (0 <=? n)%Z then take (Z.to_nat n) xs
  else take (length xs - Z.to_nat (- n))%nat xs.

(** The loop of [build_marketplace_links]: one link per query, appended
    to [links]. *)
Fixpoint build_loop (marketplace_name url_template : str)
    (queries : list SearchQuery) (links : list MarketplaceLink)
    : result (list MarketplaceLink) :=
  match queries with
  | [] => Ok links
  | search_query :: queries' =>
      link ← build_marketplace_link marketplace_name url_template
               (sq_query search_query);
      build_loop marketplace_name url_template queries' (links ++ [link])
  end.

Definition build_marketplace_links
    (analysis : VisionAnalysisResult) (max_links : Z)
    : result (list MarketplaceLink) :=
  let '(marketplace_name, url_template) :=
    get_marketplace_for_type (object_type analysis) in
  build_loop marketplace_name url_template
    (slice_to (search_queries analysis) max_links) [].

End UrlBuilder.
Export UrlBuilder.


(** ** Percent-decoding ([urllib.parse.unquote])

    The standard library's inverse of [quote]; the round trip of the
    encoded query is stated with it. *)

Module Unquote.

(** The value of a hexadecimal digit, of either case. *)
Definition hex_value (c : N) : option N :=
  if (0x30 <=? c) && (c <=? 0x39) then Some (c - 0x30)
  else if (0x41 <=? c) && (c <=? 0x46) then Some (c - 0x37)
  else if (0x61 <=? c) && (c <=? 0x66) then Some (c - 0x57)
  else None.

(** [unquote_to_bytes]: each [%XX] escape gives its byte; a [%] that is
    not followed by two hexadecimal digits is kept. *)
Fixpoint unquote_to_bytes (bs : list N) : list N :=
  match bs with
  | [] => []
  | c :: rest =>
      if c =? 0x25 then
        match rest with
        | h :: l :: rest2 =>
            match hex_value h, hex_value l with
            | Some a, Some b => (16 * a + b) :: unquote_to_bytes rest2
            | _, _ => c :: unquote_to_bytes rest
            end
        | _ => c :: unquote_to_bytes rest
        end
      else c :: unquote_to_bytes rest
  end.

(** [unquote(string)]: the escapes are replaced by their bytes and the
    bytes are read as UTF-8.  [None] where the input is not valid text or
    the bytes are not well-formed UTF-8 (Python puts U+FFFD there). *)
Definition unquote (string : str) : option str :=
  match utf8_encode string with
  | Ok bs => utf8_decode (unquote_to_bytes bs)
  | Raise _ => None
  end.

End Unquote.
Export Unquote.

(** ** The link validator ([src/services/link_validator.py]) *)

Module LinkValidator.

(** A value of the per-marketplace table: a list of phrases or one CSS
    selector ([list[str] | str]). *)
Inductive selector_value : Type :=
| PhraseList (phrases : list str)
| Selector (css : str).

Definition selectors_of (no_results_text : list str) (results_selector : str)
    : gmap str selector_value :=
  <[lit "no_results_text" := PhraseList no_results_text]>
  (<[lit "results_selector" := Selector results_selector]> ∅).

(** Marketplace-specific selectors for detecting results. *)
Definition MARKETPLACE_SELECTORS : gmap str (gmap str selector_value) :=
  <[lit "abebooks" :=
      selectors_of
        [lit "aucun résultat"; lit "no results found"; lit "0 résultat"]
        (lit ".result-item, .cf-search-results-content, #srp-results")]>
  (<[lit "vinted" :=
      selectors_of
        [lit "aucun article"; lit "aucun résultat"]
        (lit ".feed-grid__item, .ItemBox_container, [data-testid='item-box']")]>
  (<[lit "leboncoin" :=
      selectors_of
        [lit "aucune annonce"; lit "0 annonce trouvée"; lit "pas de résultat"]
        (lit "[data-qa-id='aditem_container'], .styles_adCard, [data-test-id='ad']")]>
   ∅)).

(** A parsed page: its visible text ([soup.get_text()]) and the elements
    a CSS selector matches ([soup.select(css)]). *)
Record Soup : Type := {
  get_text : str;
  select : str → list str;
}.

(** An HTTP response: status code and body. *)
Record Response : Type := {
  status_code : N;
  text : str;
}.

(** [response.raise_for_status()]: raises unless the status is 2xx. *)
Definition raise_for_status (response : Response) : result unit :=
  if (200 <=? status_code response) && (status_code response <? 300)
  then Ok tt
  else Raise HTTPStatusError.

(** The no-results phrases of a marketplace, none when it is not in the
    table. *)
Definition no_results_text (marketplace : str) : list str :=
  match MARKETPLACE_SELECTORS !! marketplace ≫= (.!! lit "no_results_text") with
  | Some (PhraseList phrases) => phrases
  | _ => []
  end.

(** The link an outcome of [gather] keeps: the link of a task that
    returned "has results". *)
Definition kept (r : result (MarketplaceLink * bool)) : option MarketplaceLink :=
  match r with
  | Ok (link, true) => Some link
  | _ => None
  end.

Section Environment.

(** The HTML parser, [BeautifulSoup(html, "lxml")]. *)
Variable BeautifulSoup : str → result Soup.

(** The network: the outcome of the GET request that task number [i]
    of a batch sends to a URL with a timeout (client set-up included). *)
Variable http_get : nat → Q → str → result Response.

Definition check_for_results (html marketplace : str) : result bool :=
  soup ← BeautifulSoup html;
  let selectors := default ∅ (MARKETPLACE_SELECTORS !! marketplace) in
  let page_text := lower (get_text soup) in
  let no_results_phrases :=
    default (PhraseList []) (selectors !! lit "no_results_text") in
  let found_no_results :=
    match no_results_phrases with
    | PhraseList phrases =>
        existsb (λ phrase, contains (lower phrase) page_text) phrases
    | Selector _ => false
    end in
  if found_no_results then Ok false
  else
    let results_selector :=
      default (Selector []) (selectors !! lit "results_selector") in
    match results_selector with
    | Selector css =>
        if negb (bool_decide (css = []))
        then
          let results := select soup css in
          if (0 <? length results)%nat then Ok true else Ok true
        else Ok true
    | PhraseList _ => Ok true
    end.

(** The body of the [try] block of [validate_single_link]. *)
Definition fetch_and_check (i : nat) (link : MarketplaceLink) (timeout : Q)
    : result (MarketplaceLink * bool) :=
  response ← http_get i timeout (url link);
  _ ← raise_for_status response;
  has_results ← check_for_results (text response) (marketplace link);
  mret (link, has_results).

(** Task [i] of a batch: [validate_single_link(link, timeout)]. *)
Definition validate_single_link (i : nat) (link : MarketplaceLink)
    (timeout : Q) : result (MarketplaceLink * bool) :=
  match fetch_and_check i link timeout with
  | Ok r => Ok r
  | Raise e =>
      if is_TimeoutException e then Ok (link, true)
      else if is_Exception e then Ok (link, true)
      else Raise e
  end.

(** [asyncio.gather] with [return_exceptions=True]: the outcome of
    each task, in the order of the tasks. *)
Definition gather (links : list MarketplaceLink) (timeout : Q)
    : list (result (MarketplaceLink * bool)) :=
  imap (λ i link, validate_single_link i link timeout) links.

(** The filtering loop over the gathered outcomes. *)
Fixpoint filter_loop (results : list (result (MarketplaceLink * bool)))
    (valid_links : list MarketplaceLink) : list MarketplaceLink :=
  match results with
  | [] => valid_links
  | Raise _ :: results' => filter_loop results' valid_links
  | Ok (link, has_results) :: results' =>
      if has_results
      then filter_loop results' (valid_links ++ [link])
      else filter_loop results' valid_links
  end.

(** A fetch failure of task [i], and the exception it raises inside
    the [try] block: the request itself fails (time-out, connection
    error, ...), the status is not 2xx, or parsing the body raises. *)
Inductive fetch_failure (i : nat) (link : MarketplaceLink) (timeout : Q)
    : exn → Prop :=
| request_fails (e : exn) :
    http_get i timeout (url link) = Raise e →
    fetch_failure i link timeout e
| status_not_2xx (response : Response) :
    http_get i timeout (url link) = Ok response →
    ¬ (200 ≤ status_code response < 300) →
    fetch_failure i link timeout HTTPStatusError
| parsing_fails (response : Response) (e : exn) :
    http_get i timeout (url link) = Ok response →
    200 ≤ status_code response < 300 →
    BeautifulSoup (text response) = Raise e →
    fetch_failure i link timeout e.

Definition validate_marketplace_links (links : list MarketplaceLink)
    (timeout : Q) : list MarketplaceLink :=
  match links with
  | [] => links
  | _ :: _ =>
      let results := gather links timeout in
      let valid_links := filter_loop results [] in
      match valid_links, links !! 0%nat with
      | [], Some first => [first]
      | _, _ => valid_links
      end
  end.

End Environment.

End LinkValidator.
Export LinkValidator.


(** ** The encoding as the specification words it *)

Module Spec.

(** The URL-safe unreserved set: letters, digits, [-], [.], [_], [~]. *)
Definition unreserved (c : N) : bool :=
  bool_decide
    (c ∈ lit "ABCDEFGHIJKLMNOPQRSTUVWXYZabcdefghijklmnopqrstuvwxyz0123456789-._~").

(** One character percent-encoded: kept when unreserved, else each byte
    of its UTF-8 sequence written [%XX]. *)
Definition percent_encode_char (c : N) : result str :=
  if unreserved c then Ok [c]
  else bs ← utf8_encode_cp c; mret (mjoin (percent_escape <$> bs)).

(** Text with no brace, as the fixed parts of a URL template are. *)
Definition brace_free (s : str) : Prop := Forall (λ c, c ≠ 0x7B ∧ c ≠ 0x7D) s.

(** The fixed text before and after the placeholder of a template. *)
Definition splits_at_placeholder (template pre suf : str) : Prop :=
  template = pre ++ lit "{query}" ++ suf ∧ brace_free pre ∧ brace_free suf.

(** The alphabet of an encoded query: unreserved characters and [%]. *)
Definition quoted_char (c : N) : Prop := unreserved c = true ∨ c = 0x25.

End Spec.
Export Spec.

(** ** Sample data *)

Module Samples.

Definition phrase (q : string) : SearchQuery :=
  {| sq_query := lit q; sq_confidence := 0.9 |}.

(** A book with two phrases, as in the tests of the builder. *)
Definition book_analysis : VisionAnalysisResult :=
  {| object_type := lit "book";
     description := lit "Roman policier";
     search_queries := [phrase "livre policier"; phrase "roman thriller"];
     confidence := 0.88 |}.

(** A tool with three phrases, one of them with accents. *)
Definition tools_analysis : VisionAnalysisResult :=
  {| object_type := lit "tools";
     description := lit "Clé";
     search_queries :=
       [phrase "clé à molette"; phrase "clé anglaise"; phrase "outil"];
     confidence := 0.8 |}.

(** Three links, as in the tests of the validator. *)
Definition sample_link (m q u : string) : MarketplaceLink :=
  {| marketplace := lit m; query := lit q; url := lit u |}.

Definition sample_links : list MarketplaceLink :=
  [sample_link "abebooks" "book1" "https://example.com/1";
   sample_link "abebooks" "book2" "https://example.com/2";
   sample_link "abebooks" "book3" "https://example.com/3"].

(** A page without markup: its visible text is the body itself and no
    selector matches an element. *)
Definition text_page (body : str) : Soup :=
  {| get_text := body; select := λ _, [] |}.

(** The parser on bodies without markup. *)
Definition parse_text (html : str) : result Soup := Ok (text_page html).

(** A page with the given visible text on which every selector matches
    one element. *)
Definition item_page (body : str) : Soup :=
  {| get_text := body; select := λ _, [lit "div.result-item"] |}.

Definition parse_with_item (html : str) : result Soup := Ok (item_page html).

(** A network that answers every request with status 200 and one body. *)
Definition serve (body : str) : nat → Q → str → result Response :=
  λ _ _ _, Ok {| status_code := 200; text := body |}.

(** A network on which every request times out. *)
Definition unreachable : nat → Q → str → result Response :=
  λ _ _ _, Raise TimeoutException.

(** A network whose requests are all cancelled before they complete. *)
Definition cancelled : nat → Q → str → result Response :=
  λ _ _ _, Raise CancelledError.

End Samples.
Export Samples.

(** ** Application exceptions ([src/core/exceptions.py]) *)

Module Exceptions.

(** What the message of an [ImageValidationError] is formatted from. *)
Inductive validation_message : Type :=
| FileTooLarge (file_size : nat) (max_upload_size_mb : Z)
| EmptyFileUploaded
| NoFilenameProvided
| InvalidFileType (ext : str)
| InvalidMagicNumbers.

(** The [detail] of an [HTTPException] of the API. *)
Inductive http_detail : Type :=
| ValidationDetail (message : validation_message)
| AnalysisFailedDetail
| UnexpectedErrorDetail.

(** The exceptions of the application layer: the classes of
    [exceptions.py], FastAPI's [HTTPException], the errors of the
    Anthropic client ([APITimeoutError] is an [APIError]; [APIError]
    stands here for one that is not a time-out), [IndexError],
    [json.JSONDecodeError], and the exceptions [exn] of the two link
    services.  A [VisionAPIError] carries what its message is formatted
    from. *)
Inductive error : Type :=
| VisionAPIError (message : vision_message)
| ImageValidationError (message : validation_message)
| MarketplaceRoutingError
| HTTPException (status_code : N) (detail : http_detail)
| APITimeoutError
| APIError
| JSONDecodeError
| IndexError
| LibraryError (e : exn)
with vision_message : Type :=
| UnsupportedImageFormat (ext : str)
| FailedToReadImageFile (cause : error)
| UnexpectedResponseFormat
| RequestTimedOut
| VisionApiError (cause : error)
| InvalidJsonResponse (cause : error)
| FailedToAnalyzeImage (cause : error).

(** [isinstance(e, Exception)] *)
Definition is_Exception_error (e : error) : bool :=
  match e with
  | LibraryError e' => is_Exception e'
  | _ => true
  end.

Inductive outcome (A : Type) : Type :=
| Return (a : A)
| Throw (e : error).
Arguments Return {A} a.
Arguments Throw {A} e.

#[global] Instance outcome_ret : MRet outcome := fun A a => Return a.
#[global] Instance outcome_fmap : FMap outcome := fun A B f m =>
  match m with
  | Return a => Return (f a)
  | Throw e => Throw e
  end.
#[global] Instance outcome_bind : MBind outcome := fun A B f m =>
  match m with
  | Return a => f a
  | Throw e => Throw e
  end.

(** A call into the link services. *)
Definition lift {A} (r : result A) : outcome A :=
  match r with
  | Ok a => Return a
  | Raise e => Throw (LibraryError e)
  end.

End Exceptions.
Export Exceptions.

(** ** Paths ([pathlib], POSIX flavour)

    The parts of [pathlib] the application uses: the final component of
    a path, its suffix, joining a directory and a file name. *)

Module Pathlib.

(** [s.split(sep)] for a one-character separator. *)
Fixpoint split_on (sep : N) (s : str) : list (list N) :=
  match s with
  | [] => [[]]
  | c :: s' =>
      if c =? sep then [] :: split_on sep s'
      else
        match split_on sep s' with
        | piece :: pieces => (c :: piece) :: pieces
        | [] => [[c]]
        end
  end.

(** [sep.join(pieces)] *)
Fixpoint join_with (sep : N) (pieces : list (list N)) : str :=
  match pieces with
  | [] => []
  | [piece] => piece
  | piece :: pieces' => piece ++ sep :: join_with sep pieces'
  end.

(** A component that parsing keeps: not empty and not [.]. *)
Definition kept_component (x : list N) : Prop := x ≠ [] ∧ x ≠ [0x2E].

#[global] Instance kept_component_dec (x : list N) : Decision (kept_component x).
Proof. unfold kept_component. apply _. Defined.

(** The components of a path. *)
Definition path_parts (path : str) : list (list N) :=
  filter kept_component (split_on 0x2F path).

(** The root of a path: [//] for exactly two leading slashes, [/] for
    one or for three and more, none otherwise. *)
Definition path_root (path : str) : str :=
  match path with
  | 0x2F :: 0x2F :: 0x2F :: _ => [0x2F]
  | 0x2F :: 0x2F :: _ => [0x2F; 0x2F]
  | 0x2F :: _ => [0x2F]
  | _ => []
  end.

(** [str(Path(path))] *)
Definition path_str (path : str) : str :=
  match path_root path ++ join_with 0x2F (path_parts path) with
  | [] => [0x2E]
  | s => s
  end.

(** [Path(path).name] *)
Definition path_name (path : str) : str := default [] (last (path_parts path)).

(** A single component that parsing keeps: a file name. *)
Definition file_name (name : str) : Prop :=
  name ≠ [] ∧ name ≠ [0x2E] ∧ 0x2F ∉ name.

(** [s.rfind(c)], [None] for -1. *)
Fixpoint rfind (c : N) (s : str) : option nat :=
  match s with
  | [] => None
  | x :: s' =>
      match rfind c s' with
      | Some i => Some (S i)
      | None => if x =? c then Some 0%nat else None
      end
  end.

(** The suffix of a file name: from its last dot, when that dot is
    neither the first nor the last character (the rule of [pathlib]
    through Python 3.13). *)
Definition suffix_of_name (name : str) : str :=
  match rfind 0x2E name with
  | Some i =>
      if (0 <? i)%nat && (i <? length name - 1)%nat then drop i name else []
  | None => []
  end.

(** [Path(path).suffix] *)
Definition suffix (path : str) : str := suffix_of_name (path_name path).

(** [posixpath.join(a, b)] *)
Definition posix_join (a b : str) : str :=
  if startswith [0x2F] b then b
  else if bool_decide (a = []) || bool_decide (last a = Some 0x2F) then a ++ b
  else a ++ 0x2F :: b.

(** [str(Path(a) / b)] *)
Definition joinpath (a b : str) : str := path_str (posix_join a b).

End Pathlib.
Export Pathlib.

(** ** Uploaded files and magic numbers ([src/api/routes.py]) *)

Module Uploads.

(** An uploaded file: its name, its bytes and the read position. *)
Record UploadFile : Type := {
  filename : option str;
  content : list N;
  position : nat;
}.

(** [file.read(size)]: up to [size] bytes from the position on. *)
Definition file_read (size : nat) (file : UploadFile) : list N * UploadFile :=
  let chunk := take size (drop (position file) (content file)) in
  (chunk,
   {| filename := filename file; content := content file;
      position := position file + length chunk |}).

(** [file.read()]: all bytes from the position on. *)
Definition file_read_all (file : UploadFile) : list N * UploadFile :=
  let chunk := drop (position file) (content file) in
  (chunk,
   {| filename := filename file; content := content file;
      position := position file + length chunk |}).

(** [file.seek(offset)] *)
Definition file_seek (offset : nat) (file : UploadFile) : UploadFile :=
  {| filename := filename file; content := content file; position := offset |}.

(** Magic numbers for image file validation, in the order of the
    dictionary. *)
Definition IMAGE_MAGIC_NUMBERS : list (list N * str) :=
  [([0xFF; 0xD8; 0xFF], lit "image/jpeg");
   ([0x89; 0x50; 0x4E; 0x47; 0x0D; 0x0A; 0x1A; 0x0A], lit "image/png");
   (bytes_of_string "RIFF", lit "image/webp");
   (bytes_of_string "GIF87a", lit "image/gif");
   (bytes_of_string "GIF89a", lit "image/gif")].

(** The loop over the magic numbers: the type of the first one the
    header starts with. *)
Fixpoint first_magic (header : list N) (table : list (list N * str))
    : option str :=
  match table with
  | [] => None
  | (magic, mime_type) :: table' =>
      if startswith magic header then Some mime_type
      else first_magic header table'
  end.

Definition validate_image_magic_numbers (file : UploadFile)
    : outcome str * UploadFile :=
  let '(header, file) := file_read 8 file in
  let file := file_seek 0 file in
  match first_magic header IMAGE_MAGIC_NUMBERS with
  | Some mime_type => (Return mime_type, file)
  | None =>
      if bool_decide (take 4 header = bytes_of_string "RIFF")
         && (8 <=? length header)%nat
      then
        let '(extended_header, file) := file_read 12 file in
        let file := file_seek 0 file in
        if bool_decide (take 4 (drop 8 extended_header)
                        = bytes_of_string "WEBP")
        then (Return (lit "image/webp"), file)
        else (Throw (ImageValidationError InvalidMagicNumbers), file)
      else (Throw (ImageValidationError InvalidMagicNumbers), file)
  end.

End Uploads.
Export Uploads.

(** ** The vision service ([src/services/vision_service.py]) *)

Module Vision.

(** Media type mapping for supported image formats. *)
Definition MEDIA_TYPE_MAP : gmap str str :=
  <[lit ".jpg" := lit "image/jpeg"]>
  (<[lit ".jpeg" := lit "image/jpeg"]>
  (<[lit ".png" := lit "image/png"]>
  (<[lit ".webp" := lit "image/webp"]>
  (<[lit ".gif" := lit "image/gif"]> ∅)))).

Definition get_media_type (image_path : str) : outcome str :=
  let ext := lower (suffix image_path) in
  match MEDIA_TYPE_MAP !! ext with
  | Some media_type =>
      if bool_decide (media_type = [])
      then Throw (VisionAPIError (UnsupportedImageFormat ext))
      else Return media_type
  | None => Throw (VisionAPIError (UnsupportedImageFormat ext))
  end.

End Vision.
Export Vision.

(** ** Extracting the JSON text of a reply ([vision_service.py]) *)

Module JsonText.

(** White space as [str.strip()] and the pattern [\s] see it
    ([str.isspace]). *)
Definition is_space (c : N) : bool :=
  ((0x09 <=? c) && (c <=? 0x0D)) || ((0x1C <=? c) && (c <=? 0x20))
  || (c =? 0x85) || (c =? 0xA0) || (c =? 0x1680)
  || ((0x2000 <=? c) && (c <=? 0x200A))
  || (c =? 0x2028) || (c =? 0x2029) || (c =? 0x202F) || (c =? 0x205F)
  || (c =? 0x3000).

(** The text after its leading white space ([\s*], [lstrip]). *)
Fixpoint skip_spaces (s : str) : str :=
  match s with
  | c :: s' => if is_space c then skip_spaces s' else s
  | [] => []
  end.

(** [text.strip()] *)
Definition strip (text : str) : str :=
  reverse (skip_spaces (reverse (skip_spaces text))).

(** The code fence, three backquotes. *)
Definition fence : str := [0x60; 0x60; 0x60].

(** The lazy part [.*?\}\s*```] of the first pattern, on the text after
    the opening brace: the text up to the first closing brace that
    white space and a fence follow, that brace included. *)
Fixpoint lazy_group (body : str) : option str :=
  match body with
  | [] => None
  | c :: rest =>
      if (c =? 0x7D) && startswith fence (skip_spaces rest) then Some [c]
      else cons c <$> lazy_group rest
  end.

(** The first pattern after an opening fence: an optional [json], white
    space, and the group [(\{.*?\})]. *)
Definition fenced_group (after_fence : str) : option str :=
  let rest :=
    if startswith (lit "json") after_fence then drop 4 after_fence
    else after_fence in
  match skip_spaces rest with
  | c :: body => if c =? 0x7B then cons c <$> lazy_group body else None
  | [] => None
  end.

(** [re.search] of the first pattern, the fenced block: group 1 of the
    leftmost match. *)
Fixpoint search_fenced (text : str) : option str :=
  match text with
  | [] => None
  | _ :: rest =>
      match
        (if startswith fence text then fenced_group (drop 3 text) else None)
      with
      | Some group => Some group
      | None => search_fenced rest
      end
  end.

(** The greedy part [.*\}] of the second pattern: the longest prefix
    that ends with a closing brace. *)
Fixpoint longest_to_brace (s : str) : option str :=
  match s with
  | [] => None
  | c :: rest =>
      match longest_to_brace rest with
      | Some m => Some (c :: m)
      | None => if c =? 0x7D then Some [c] else None
      end
  end.

(** [re.search] of the second pattern, a raw object: the leftmost
    match. *)
Fixpoint search_object (text : str) : option str :=
  match text with
  | [] => None
  | c :: rest =>
      match (if c =? 0x7B then cons c <$> longest_to_brace rest else None) with
      | Some m => Some m
      | None => search_object rest
      end
  end.

Definition _extract_json_from_response (text : str) : str :=
  match search_fenced text with
  | Some group => group
  | None =>
      match search_object text with
      | Some m => m
      | None => strip text
      end
  end.

End JsonText.
Export JsonText.

(** ** Settings ([src/core/config.py]) *)

Module Config.

Record Settings : Type := {
  anthropic_api_key : str;
  claude_model : str;
  max_upload_size_mb : Z;
  allowed_extensions : gset (list N);
  upload_dir : str;
  vision_api_timeout : Z;
  max_concurrent_uploads : Z;
  link_validation_enabled : bool;
  link_validation_timeout : Z;
}.

(** The settings with every default, for a given API key. *)
Definition default_settings (api_key : str) : Settings :=
  {| anthropic_api_key := api_key;
     claude_model := lit "claude-sonnet-4-20250514";
     max_upload_size_mb := 10;
     allowed_extensions :=
       {[lit ".jpg"; lit ".jpeg"; lit ".png"; lit ".webp"]};
     upload_dir := lit "uploads";
     vision_api_timeout := 30;
     max_concurrent_uploads := 10;
     link_validation_enabled := true;
     link_validation_timeout := 3 |}.

End Config.
Export Config.

(** ** Image analysis ([src/services/vision_service.py]) *)

Module VisionService.

(** 4MB base64 limit. *)
Definition MAX_BASE64_SIZE : N := 4 * 1024 * 1024.

(** The character of a 6-bit value in the base64 alphabet. *)
Definition b64_char (n : N) : N :=
  if n <? 26 then 0x41 + n
  else if n <? 52 then 0x61 + (n - 26)
  else if n <? 62 then 0x30 + (n - 52)
  else if n =? 62 then 0x2B
  else 0x2F.

(** [base64.b64encode(bs)] *)
Fixpoint b64encode (bs : list N) : list N :=
  match bs with
  | [] => []
  | [a] => [b64_char (a / 4); b64_char ((a mod 4) * 16); 0x3D; 0x3D]
  | [a; b] =>
      [b64_char (a / 4); b64_char ((a mod 4) * 16 + b / 16);
       b64_char ((b mod 16) * 4); 0x3D]
  | a :: b :: c :: rest =>
      b64_char (a / 4) :: b64_char ((a mod 4) * 16 + b / 16)
      :: b64_char ((b mod 16) * 4 + c / 64) :: b64_char (c mod 64)
      :: b64encode rest
  end.

(** A block of the reply of the API: with a [text] attribute or
    without. *)
Inductive content_block : Type :=
| TextBlock (text : str)
| OtherBlock.

(** The constraints of [VisionAnalysisResult] and [SearchQuery]
    ([src/models/responses.py]); text read from JSON is valid Unicode. *)
Definition in_unit_interval (x : Q) : bool := Qle_bool 0 x && Qle_bool x 1.

Definition valid_SearchQuery (q : SearchQuery) : bool :=
  forallb scalar_valueb (sq_query q)
  && (1 <=? length (sq_query q))%nat && (length (sq_query q) <=? 200)%nat
  && in_unit_interval (sq_confidence q).

Definition object_type_literals : list (list N) :=
  [lit "book"; lit "clothing"; lit "electronics"; lit "furniture";
   lit "tools"; lit "general"].

Definition valid_VisionAnalysisResult (a : VisionAnalysisResult) : bool :=
  bool_decide (object_type a ∈ object_type_literals)
  && forallb scalar_valueb (description a)
  && (1 <=? length (description a))%nat
  && (1 <=? length (search_queries a))%nat
  && (length (search_queries a) <=? 3)%nat
  && forallb valid_SearchQuery (search_queries a)
  && in_unit_interval (confidence a).

(** What the service works with: the file system, the image library,
    the API client and the JSON decoder. *)
Record Collaborators : Type := {
  (** [aiofiles.open(path, "rb")] and [read()] *)
  read_file : str → outcome (list N);
  (** the Pillow branch of [_resize_image_if_needed] *)
  pil_resize : list N → str → outcome (list N);
  (** [_build_system_prompt()] *)
  system_prompt : str;
  (** [anthropic.Anthropic(api_key=...)] *)
  new_client : str → outcome unit;
  (** [client.messages.create] for a model, a system prompt, a media type
      and the base64 data of the image: the blocks of the reply *)
  messages_create : str → str → str → list N → outcome (list content_block);
  (** decoding of a JSON text into the fields of a [VisionAnalysisResult],
      before its constraints are checked *)
  json_decode : str → outcome VisionAnalysisResult;
}.

Section Service.

Variable env : Collaborators.

Definition _resize_image_if_needed (image_bytes : list N) (media_type : str)
    : outcome (list N) :=
  let base64_size := N.of_nat (length (b64encode image_bytes)) in
  if base64_size <=? MAX_BASE64_SIZE then Return image_bytes
  else pil_resize env image_bytes media_type.

(** [VisionAnalysisResult.model_validate_json(json_text)] *)
Definition model_validate_json (json_text : str) : outcome VisionAnalysisResult :=
  analysis ← json_decode env json_text;
  if valid_VisionAnalysisResult analysis then Return analysis
  else Throw (LibraryError ValidationError).

(** The [try] block around the call of the API. *)
Definition call_vision_api (media_type : str) (image_data : list N)
    (settings : Settings) : outcome VisionAnalysisResult :=
  response ← messages_create env (claude_model settings) (system_prompt env)
               media_type image_data;
  first_block ← match response with
                | block :: _ => Return block
                | [] => Throw IndexError
                end;
  response_text ← match first_block with
                  | TextBlock text => Return text
                  | OtherBlock => Throw (VisionAPIError UnexpectedResponseFormat)
                  end;
  let json_text := _extract_json_from_response response_text in
  model_validate_json json_text.

Definition analyze_image (image_path : str) (settings : Settings)
    : outcome VisionAnalysisResult :=
  media_type ← get_media_type image_path;
  image_bytes ←
    match read_file env image_path with
    | Return image_bytes => Return image_bytes
    | Throw e =>
        if is_Exception_error e
        then Throw (VisionAPIError (FailedToReadImageFile e))
        else Throw e
    end;
  image_bytes ← _resize_image_if_needed image_bytes media_type;
  let image_data := b64encode image_bytes in
  _ ← new_client env (anthropic_api_key settings);
  match call_vision_api media_type image_data settings with
  | Return analysis => Return analysis
  | Throw e =>
      match e with
      | APITimeoutError => Throw (VisionAPIError RequestTimedOut)
      | APIError => Throw (VisionAPIError (VisionApiError e))
      | JSONDecodeError => Throw (VisionAPIError (InvalidJsonResponse e))
      | _ =>
          if is_Exception_error e
          then Throw (VisionAPIError (FailedToAnalyzeImage e))
          else Throw e
      end
  end.

End Service.

End VisionService.
Export VisionService.

(** ** The analysis endpoint ([src/api/routes.py]) *)

Module Api.

(** [MarketplaceSearchResponse]: the final response. *)
Record MarketplaceSearchResponse : Type := {
  analysis : VisionAnalysisResult;
  marketplace_links : list MarketplaceLink;
  processing_time_seconds : Q;
}.

(** The constructor call [MarketplaceSearchResponse(...)]: one to five
    links and a processing time that is not negative. *)
Definition new_MarketplaceSearchResponse (a : VisionAnalysisResult)
    (links : list MarketplaceLink) (seconds : Q)
    : outcome MarketplaceSearchResponse :=
  if (1 <=? length links)%nat && (length links <=? 5)%nat
     && Qle_bool 0 seconds
  then Return {| analysis := a; marketplace_links := links;
                 processing_time_seconds := seconds |}
  else Throw (LibraryError ValidationError).

(** A lower-case hexadecimal digit. *)
Definition hex_lower (n : N) : N := if n <? 10 then 0x30 + n else 0x57 + n.

(** ['%0*x' % (count, u)], the low [count] hexadecimal digits of [u]. *)
Definition hex_digits (count : nat) (u : N) : str :=
  (λ i, hex_lower ((u / 16 ^ N.of_nat (count - 1 - i)) mod 16)) <$> seq 0 count.

(** [str(uuid)] for the UUID of integer value [u]. *)
Definition uuid_str (u : N) : str :=
  let h := hex_digits 32 u in
  take 8 h ++ 0x2D :: take 4 (drop 8 h) ++ 0x2D :: take 4 (drop 12 h)
  ++ 0x2D :: take 4 (drop 16 h) ++ 0x2D :: drop 20 h.

(** What the endpoint works with besides the vision service: the UUID
    it draws, the file system, the HTML parser and the network of the
    link validator, and the clock. *)
Record Server : Type := {
  vision : Collaborators;
  (** the integer value of [uuid.uuid4()] *)
  uuid4 : N;
  (** [upload_dir.mkdir(exist_ok=True)] *)
  mkdir : str → outcome unit;
  (** [aiofiles.open(temp_path, "wb")] and [write(content)] *)
  write_file : str → list N → outcome unit;
  parse_html : str → result Soup;
  fetch : nat → Q → str → result Response;
  (** [round(time.time() - start_time, 2)] *)
  elapsed : Q;
}.

Section Endpoint.

Variable server : Server.

(** The [try] block of [analyze_image_endpoint]. *)
Definition endpoint_body (file : UploadFile) (settings : Settings)
    : outcome MarketplaceSearchResponse :=
  let max_size := (max_upload_size_mb settings * 1024 * 1024)%Z in
  let file_size := length (content file) in
  let file := file_seek 0 file in
  if (max_size <? Z.of_nat file_size)%Z
  then Throw (ImageValidationError
                (FileTooLarge file_size (max_upload_size_mb settings)))
  else if (file_size =? 0)%nat
  then Throw (ImageValidationError EmptyFileUploaded)
  else
    match filename file with
    | None => Throw (ImageValidationError NoFilenameProvided)
    | Some name =>
        if bool_decide (name = [])
        then Throw (ImageValidationError NoFilenameProvided)
        else
          let ext := lower (suffix name) in
          if bool_decide (ext ∈ allowed_extensions settings)
          then
            let '(verdict, file) := validate_image_magic_numbers file in
            _ ← verdict;
            _ ← mkdir server (upload_dir settings);
            let temp_filename := uuid_str (uuid4 server) ++ ext in
            let temp_path := joinpath (upload_dir settings) temp_filename in
            let '(content, file) := file_read_all file in
            _ ← write_file server temp_path content;
            analysis ← analyze_image (vision server) temp_path settings;
            links ← lift (build_marketplace_links analysis 5);
            let links :=
              if link_validation_enabled settings
              then validate_marketplace_links (parse_html server)
                     (fetch server) links
                     (inject_Z (link_validation_timeout settings))
              else links in
            new_MarketplaceSearchResponse analysis links (elapsed server)
          else Throw (ImageValidationError (InvalidFileType ext))
    end.

Definition analyze_image_endpoint (file : UploadFile) (settings : Settings)
    : outcome MarketplaceSearchResponse :=
  match endpoint_body file settings with
  | Return response => Return response
  | Throw e =>
      match e with
      | ImageValidationError message =>
          Throw (HTTPException 400 (ValidationDetail message))
      | VisionAPIError _ => Throw (HTTPException 503 AnalysisFailedDetail)
      | _ =>
          if is_Exception_error e
          then Throw (HTTPException 500 UnexpectedErrorDetail)
          else Throw e
      end
  end.

End Endpoint.

End Api.
Export Api.

(** ** Sample collaborators *)

Module ServiceSamples.

(** A vision service whose API answers with the given blocks and whose
    decoder gives the given result; files read as a small JPEG, the
    image library is out of order. *)
Definition sample_vision (reply : list content_block)
    (decoded : outcome VisionAnalysisResult) : Collaborators :=
  {| read_file := λ _, Return [0xFF; 0xD8; 0xFF; 0xE0];
     pil_resize := λ _ _, Throw (LibraryError (OtherException 0));
     system_prompt := lit "You are an expert at analyzing product images";
     new_client := λ _, Return tt;
     messages_create := λ _ _ _ _, Return reply;
     json_decode := λ _, decoded |}.

(** A server around a vision service: the file system works, every
    marketplace page shows results. *)
Definition sample_server (vision : Collaborators) : Server :=
  {| vision := vision;
     uuid4 := 0x123e4567e89b42d3a456426614174000;
     mkdir := λ _, Return tt;
     write_file := λ _ _, Return tt;
     parse_html := parse_text;
     fetch := serve (lit "Livre 1");
     elapsed := 1.5 |}.

(** An upload with the signature of a JPEG file. *)
Definition jpeg_upload (name : string) : UploadFile :=
  {| filename := Some (lit name);
     content := [0xFF; 0xD8; 0xFF; 0xE0; 0x00; 0x10; 0x4A; 0x46; 0x49; 0x46];
     position := 0 |}.

End ServiceSamples.
Export ServiceSamples.

(** * Properties *)

Ltac Zify.zify_post_hook ::= Z.to_euclidean_division_equations.

(** Decide the comparisons of the goal one after the other, closing the
    branches that arithmetic excludes. *)
Ltac cases_N :=
  repeat match goal with
  | |- context [?a <? ?b] => destruct (N.ltb_spec a b); try lia
  | |- context [?a <=? ?b] => destruct (N.leb_spec a b); try lia
  | |- context [?a =? ?b] => destruct (N.eqb_spec a b); try lia
  end.

(** Closed decidable facts, by evaluation. *)
Ltac by_evaluation := apply (bool_decide_unpack _); vm_compute; exact I.

(** ** Text *)

Section TextFacts.

Lemma startswith_spec (needle hay : str) :
  startswith needle hay = true ↔ ∃ rest, hay = needle ++ rest.
Proof.
  revert hay. induction needle as [|a needle IH]; intros hay; simpl.
  - split; [eauto | done].
  - destruct hay as [|b hay].
    + split; [done | intros [rest Hrest]; discriminate].
    + rewrite andb_true_iff, N.eqb_eq, IH. split.
      * intros [-> [rest ->]]. eauto.
      * intros [rest Hrest]. injection Hrest as -> ->. eauto.
Qed.

Lemma contains_spec (needle hay : str) :
  contains needle hay = true ↔ ∃ before after, hay = before ++ needle ++ after.
Proof.
  induction hay as [|b hay IH]; simpl.
  - rewrite orb_false_r, startswith_spec. split.
    + intros [rest Hrest]. exists [], rest. done.
    + intros (before & after & Heq). symmetry in Heq.
      apply app_eq_nil in Heq as [-> Heq].
      apply app_eq_nil in Heq as [-> ->]. by exists [].
  - rewrite orb_true_iff, startswith_spec, IH. split.
    + intros [[rest Hrest] | (before & after & ->)].
      * exists [], rest. done.
      * exists (b :: before), after. done.
    + intros (before & after & Heq). destruct before as [|b' before].
      * left. exists after. done.
      * right. injection Heq as -> ->. eauto.
Qed.

Lemma lower_app (s t : str) : lower (s ++ t) = lower s ++ lower t.
Proof. apply map_app. Qed.

Lemma scalar_valueb_spec (c : N) : scalar_valueb c = true ↔ scalar_value c.
Proof. unfold scalar_valueb, scalar_value. cases_N; simpl; intuition lia. Qed.

End TextFacts.

(** ** UTF-8 *)

Section Utf8Facts.

(** The encoder is total on scalar values, and the decoder reads its
    bytes back whatever follows them. *)
Lemma utf8_encode_cp_decode (c : N) :
  scalar_value c →
  ∃ bs, utf8_encode_cp c = Ok bs ∧ Forall is_byte bs ∧
        ∀ rest, utf8_decode (bs ++ rest) = cons c <$> utf8_decode rest.
Proof.
  intros Hc. unfold scalar_value in Hc. unfold utf8_encode_cp.
  destruct (N.ltb_spec c 0x80).
  { eexists. split; [done|]. split.
    - repeat constructor. unfold is_byte. lia.
    - intros rest. simpl. destruct (N.ltb_spec c 0x80); [done | lia]. }
  destruct (N.ltb_spec c 0x800).
  { eexists. split; [done|]. split.
    - repeat constructor; unfold is_byte; lia.
    - intros rest. cbn [app utf8_decode]. unfold is_continuation.
      cases_N. cbn [andb]. do 2 f_equal. lia. }
  destruct (N.leb_spec 0xD800 c), (N.leb_spec c 0xDFFF); try lia; cbn [andb].
  all: destruct (N.ltb_spec c 0x10000); try lia.
  all: eexists; (split; [done|]); split;
    [ repeat constructor; unfold is_byte; lia | ].
  all: intros rest; cbn [app utf8_decode]; unfold is_continuation.
  all: cases_N; cbn [andb negb]; do 2 f_equal; lia.
Qed.

Lemma utf8_encode_decode (s : str) :
  valid_text s →
  ∃ bs, utf8_encode s = Ok bs ∧ Forall is_byte bs ∧
        ∀ rest, utf8_decode (bs ++ rest) = app s <$> utf8_decode rest.
Proof.
  induction 1 as [|c s Hc Hs (bs' & Hbs' & Hbytes' & Hdec')]; simpl.
  - exists []. split; [done|]. split; [constructor|].
    intros rest. simpl. by destruct (utf8_decode rest).
  - destruct (utf8_encode_cp_decode c Hc) as (bs & -> & Hbytes & Hdec).
    rewrite Hbs'. exists (bs ++ bs'). split; [done|]. split.
    + by apply Forall_app.
    + intros rest. rewrite <- app_assoc, Hdec, Hdec'.
      by destruct (utf8_decode rest).
Qed.

(** Text below U+0080 is its own UTF-8 encoding. *)
Lemma utf8_encode_ascii (s : str) :
  Forall (λ c, c < 0x80) s → utf8_encode s = Ok s.
Proof.
  induction 1 as [|c s Hc Hs IH]; simpl; [done|].
  unfold utf8_encode_cp. destruct (N.ltb_spec c 0x80); [|lia].
  simpl. by rewrite IH.
Qed.

End Utf8Facts.

(** ** Percent-encoding *)

Section QuoteFacts.

(** A property checked on every number below [n] holds below [n]. *)
Lemma forall_below (n : nat) (P : N → bool) :
  forallb P (N.of_nat <$> seq 0 n) = true →
  ∀ c, c < N.of_nat n → P c = true.
Proof.
  intros Hall c Hc. rewrite forallb_forall in Hall. apply Hall.
  apply list_elem_of_In, list_elem_of_fmap. exists (N.to_nat c). split; [lia|].
  apply elem_of_seq. lia.
Qed.

Lemma unreserved_always_safe (c : N) : unreserved c = always_safe c.
Proof.
  destruct (N.ltb_spec c 128) as [Hc|Hc].
  - apply (forall_below 128
             (λ c, bool_decide (unreserved c = always_safe c)))
      in Hc; [by apply bool_decide_eq_true in Hc | by vm_compute].
  - transitivity false.
    + apply bool_decide_eq_false. intros Hin.
      assert (Hall : Forall (λ c, c < 128)
        (lit "ABCDEFGHIJKLMNOPQRSTUVWXYZabcdefghijklmnopqrstuvwxyz0123456789-._~"))
        by (apply (bool_decide_unpack _); vm_compute; exact I).
      rewrite Forall_forall in Hall. apply Hall in Hin. lia.
    + unfold always_safe. cases_N; done.
Qed.

Lemma always_safe_ascii (b : N) : always_safe b = true → b < 0x80 ∧ b ≠ 0x25.
Proof. unfold always_safe. cases_N; simpl; try done; lia. Qed.

Lemma hex_digit_safe (n : N) : n < 16 → always_safe (hex_digit n) = true.
Proof. intros Hn. unfold hex_digit, always_safe. cases_N; done. Qed.

Lemma hex_value_digit (n : N) : n < 16 → hex_value (hex_digit n) = Some n.
Proof.
  intros Hn. unfold hex_digit, hex_value.
  destruct (N.ltb_spec n 10); cases_N; cbn [andb]; f_equal; lia.
Qed.

Lemma quoter_alphabet (b : N) : is_byte b → Forall quoted_char (quoter b).
Proof.
  unfold is_byte, quoter, percent_escape, quoted_char. intros Hb.
  destruct (always_safe b) eqn:Hsafe.
  - apply Forall_singleton. left. by rewrite unreserved_always_safe.
  - repeat apply Forall_cons_2; try apply Forall_nil_2.
    + by right.
    + left. rewrite unreserved_always_safe. apply hex_digit_safe. lia.
    + left. rewrite unreserved_always_safe. apply hex_digit_safe. lia.
Qed.

Lemma quoted_char_ascii (c : N) : quoted_char c → c < 0x80.
Proof.
  intros [Hc | ->]; [|lia].
  rewrite unreserved_always_safe in Hc. by apply always_safe_ascii.
Qed.

Lemma unquote_quoter (b : N) (rest : list N) :
  is_byte b → unquote_to_bytes (quoter b ++ rest) = b :: unquote_to_bytes rest.
Proof.
  unfold is_byte, quoter, percent_escape. intros Hb.
  destruct (always_safe b) eqn:Hsafe.
  - apply always_safe_ascii in Hsafe as [_ Hne]. simpl.
    destruct (N.eqb_spec b 0x25); done.
  - cbn [app unquote_to_bytes N.eqb Pos.eqb].
    rewrite !hex_value_digit by lia. f_equal. lia.
Qed.

Lemma quote_from_bytes_app (bs bt : list N) :
  quote_from_bytes (bs ++ bt) = quote_from_bytes bs ++ quote_from_bytes bt.
Proof. unfold quote_from_bytes. by rewrite fmap_app, join_app. Qed.

Lemma quote_from_bytes_alphabet (bs : list N) :
  Forall is_byte bs → Forall quoted_char (quote_from_bytes bs).
Proof.
  unfold quote_from_bytes. induction 1 as [|b bs Hb Hbs IH]; simpl.
  - constructor.
  - apply Forall_app. split; [by apply quoter_alphabet | done].
Qed.

Lemma unquote_quote_from_bytes (bs : list N) :
  Forall is_byte bs → unquote_to_bytes (quote_from_bytes bs) = bs.
Proof.
  induction 1 as [|b bs Hb Hbs IH]; [done|].
  change (quote_from_bytes (b :: bs)) with (quoter b ++ quote_from_bytes bs).
  rewrite unquote_quoter by done. by rewrite IH.
Qed.

(** [quote] is total on valid text; its output is plain ASCII over the
    quoted alphabet and decodes back to the text. *)
Lemma quote_valid (s : str) :
  valid_text s →
  ∃ bs, utf8_encode s = Ok bs ∧ Forall is_byte bs ∧
        quote s = Ok (quote_from_bytes bs) ∧
        utf8_decode bs = Some s.
Proof.
  intros Hs. destruct (utf8_encode_decode s Hs) as (bs & Hbs & Hbytes & Hdec).
  exists bs. unfold quote. rewrite Hbs. repeat split; try done.
  specialize (Hdec []). cbn [utf8_decode fmap option_fmap option_map] in Hdec.
  by rewrite !app_nil_r in Hdec.
Qed.

End QuoteFacts.

(** ** String formatting and routing *)

Section RoutingFacts.

Lemma format_query_literal (pre rest value : str) :
  brace_free pre →
  format_query (pre ++ rest) value = app pre <$> format_query rest value.
Proof.
  induction 1 as [|c pre [Hopen Hclose] Hpre IH]; simpl.
  - by destruct (format_query rest value).
  - destruct (N.eqb_spec c 0x7B); [done|].
    destruct (N.eqb_spec c 0x7D); [done|].
    rewrite IH. by destruct (format_query rest value).
Qed.

Lemma format_query_field (rest value : str) :
  format_query (lit "{query}" ++ rest) value
  = app value <$> format_query rest value.
Proof. reflexivity. Qed.

Lemma format_query_template (pre suf value : str) :
  brace_free pre → brace_free suf →
  format_query (pre ++ lit "{query}" ++ suf) value = Ok (pre ++ value ++ suf).
Proof.
  intros Hpre Hsuf.
  rewrite format_query_literal, format_query_field by done.
  rewrite <- (app_nil_r suf) at 1.
  rewrite format_query_literal by done. simpl. by rewrite app_nil_r.
Qed.


Lemma MARKETPLACE_URLS_book :
  MARKETPLACE_URLS !! lit "book"
  = Some (lit "abebooks",
          lit "https://www.abebooks.fr/servlet/SearchResults?kn={query}&sts=t").
Proof. unfold MARKETPLACE_URLS. apply lookup_insert_eq. Qed.

Lemma MARKETPLACE_URLS_clothing :
  MARKETPLACE_URLS !! lit "clothing"
  = Some (lit "vinted", lit "https://www.vinted.fr/catalog?search_text={query}").
Proof.
  unfold MARKETPLACE_URLS.
  rewrite lookup_insert_ne by by_evaluation. apply lookup_insert_eq.
Qed.

Lemma MARKETPLACE_URLS_other (c : str) :
  c ≠ lit "book" → c ≠ lit "clothing" → MARKETPLACE_URLS !! c = None.
Proof.
  intros Hbook Hclothing. unfold MARKETPLACE_URLS.
  rewrite !lookup_insert_ne by done. apply lookup_empty.
Qed.

Lemma MARKETPLACE_URLS_Some (c : str) (entry : str * str) :
  MARKETPLACE_URLS !! c = Some entry → c = lit "book" ∨ c = lit "clothing".
Proof.
  intros Hentry. destruct (decide (c = lit "book")); [by left|].
  destruct (decide (c = lit "clothing")); [by right|].
  by rewrite MARKETPLACE_URLS_other in Hentry.
Qed.

(** Every route, from the table or the default, names a marketplace of
    the literal type and has a template with one placeholder between
    two brace-free parts. *)
Lemma route_well_formed (c : str) :
  (get_marketplace_for_type c).1 ∈ marketplace_literals ∧
  ∃ pre suf, splits_at_placeholder (get_marketplace_for_type c).2 pre suf.
Proof.
  unfold get_marketplace_for_type, splits_at_placeholder.
  destruct (MARKETPLACE_URLS !! c) as [entry|] eqn:Hentry.
  - apply MARKETPLACE_URLS_Some in Hentry as Hc. destruct Hc as [-> | ->].
    + rewrite MARKETPLACE_URLS_book in Hentry. injection Hentry as <-.
      split; [by_evaluation|].
      exists (lit "https://www.abebooks.fr/servlet/SearchResults?kn="),
             (lit "&sts=t").
      split; [reflexivity|]. split; by_evaluation.
    + rewrite MARKETPLACE_URLS_clothing in Hentry. injection Hentry as <-.
      split; [by_evaluation|].
      exists (lit "https://www.vinted.fr/catalog?search_text="), [].
      split; [reflexivity|]. split; by_evaluation.
  - split; [by_evaluation|].
    exists (lit "https://www.leboncoin.fr/recherche?text="), [].
    split; [reflexivity|]. split; by_evaluation.
Qed.

(** A link for a valid phrase on a well-formed route is built without
    error: the phrase is kept, the URL is the template with the encoded
    phrase in place of the placeholder. *)
Lemma build_marketplace_link_ok (name template pre suf q : str) :
  name ∈ marketplace_literals →
  splits_at_placeholder template pre suf →
  valid_text q →
  ∃ encoded,
    encode_query q = Ok encoded ∧
    build_marketplace_link name template q
    = Ok {| marketplace := name; query := q; url := pre ++ encoded ++ suf |}.
Proof.
  intros Hname (-> & Hpre & Hsuf) Hq.
  destruct (quote_valid q Hq) as (bs & _ & _ & Hquote & _).
  exists (quote_from_bytes bs). split; [done|].
  unfold build_marketplace_link, encode_query. rewrite Hquote.
  cbn [mbind result_bind]. rewrite format_query_template by done.
  unfold new_MarketplaceLink. by rewrite bool_decide_eq_true_2.
Qed.

(** A link that was built carries the marketplace name and the phrase
    it was built from. *)
Lemma build_marketplace_link_fields (name template q : str)
    (link : MarketplaceLink) :
  build_marketplace_link name template q = Ok link →
  marketplace link = name ∧ query link = q.
Proof.
  unfold build_marketplace_link, new_MarketplaceLink.
  destruct (encode_query q) as [encoded|]; simpl; [|done].
  destruct (format_query template encoded) as [u|]; simpl; [|done].
  case_bool_decide; [|done]. by intros [= <-].
Qed.

Lemma build_loop_ok (name template : str) (queries : list SearchQuery)
    (acc : list MarketplaceLink) :
  Forall (λ q, ∃ link,
            build_marketplace_link name template (sq_query q) = Ok link)
         queries →
  ∃ links,
    build_loop name template queries acc = Ok (acc ++ links) ∧
    Forall2 (λ q link,
               build_marketplace_link name template (sq_query q) = Ok link)
            queries links.
Proof.
  intros Hall. revert acc.
  induction Hall as [|q queries [link Hlink] _ IH]; intros acc; simpl.
  - exists []. by rewrite app_nil_r.
  - rewrite Hlink. simpl. destruct (IH (acc ++ [link])) as (links & -> & Hall).
    exists (link :: links). split.
    + by rewrite <- app_assoc.
    + by constructor.
Qed.

Lemma build_loop_inv (name template : str) (queries : list SearchQuery)
    (acc out : list MarketplaceLink) :
  build_loop name template queries acc = Ok out →
  ∃ links,
    out = acc ++ links ∧
    Forall2 (λ q link,
               build_marketplace_link name template (sq_query q) = Ok link)
            queries links.
Proof.
  revert acc. induction queries as [|q queries IH]; intros acc; simpl.
  - intros [= <-]. exists []. by rewrite app_nil_r.
  - destruct (build_marketplace_link name template (sq_query q))
      as [link|] eqn:Hlink; simpl; [|done].
    intros Hout. apply IH in Hout as (links & -> & Hall).
    exists (link :: links). split.
    + by rewrite <- app_assoc.
    + by constructor.
Qed.

End RoutingFacts.

(** ** The link builder *)

Section BuilderFacts.

(** The bytes of one scalar value, quoted, are the character
    percent-encoded as the specification words it. *)
Lemma quote_cp (c : N) :
  scalar_value c →
  ∃ bs, utf8_encode_cp c = Ok bs ∧
        percent_encode_char c = Ok (quote_from_bytes bs).
Proof.
  intros Hc. unfold percent_encode_char. rewrite unreserved_always_safe.
  destruct (always_safe c) eqn:Hsafe.
  - apply always_safe_ascii in Hsafe as Hascii. destruct Hascii as [Hascii _].
    exists [c]. unfold utf8_encode_cp.
    destruct (N.ltb_spec c 0x80); [|lia]. split; [done|].
    unfold quote_from_bytes, quoter. simpl. by rewrite Hsafe.
  - destruct (utf8_encode_cp_decode c Hc) as (bs & Hbs & _ & _).
    exists bs. split; [done|]. rewrite Hbs. simpl. f_equal.
    assert (Hunsafe : Forall (λ b, always_safe b = false) bs).
    { revert Hbs. unfold scalar_value in Hc. unfold utf8_encode_cp.
      destruct (N.ltb_spec c 0x80);
        [intros [= <-]; by repeat constructor|].
      assert (Hhigh : ∀ b, 0x80 ≤ b → always_safe b = false)
        by (intros b Hb; unfold always_safe; cases_N; done).
      cases_N; cbn [andb]; intros [= <-];
        repeat constructor; apply Hhigh; lia. }
    unfold quote_from_bytes. f_equal. apply Forall_fmap_ext_1.
    eapply Forall_impl; [exact Hunsafe|].
    intros b Hb. unfold quoter. by rewrite Hb.
Qed.

(** [encode_query] works character by character. *)
Lemma encode_query_by_char (s : str) :
  valid_text s →
  ∃ encoded parts,
    encode_query s = Ok encoded ∧
    Forall2 (λ c part, percent_encode_char c = Ok part) s parts ∧
    encoded = mjoin parts.
Proof.
  unfold encode_query, quote.
  induction 1 as [|c s Hc Hs (encoded & parts & Henc & Hparts & ->)].
  - exists [], []. repeat split. constructor.
  - destruct (quote_cp c Hc) as (bs & Hbs & Hpart).
    cbn [utf8_encode]. rewrite Hbs.
    destruct (utf8_encode s) as [bs'|]; [|done].
    injection Henc as Henc.
    exists (quote_from_bytes bs ++ mjoin parts), (quote_from_bytes bs :: parts).
    split; [|split].
    + simpl. unfold mret, result_ret.
      by rewrite quote_from_bytes_app, Henc.
    + by constructor.
    + done.
Qed.

End BuilderFacts.

(** C7.  On valid Unicode text [encode_query] cannot fail, and its result
    is the text percent-encoded character by character: a character of
    the unreserved set (letters, digits, [-], [.], [_], [~]) is kept, any
    other character becomes the [%XX] escapes of the bytes of its UTF-8
    sequence.  The result holds unreserved characters and [%] only, so a
    space is never written [+]: it becomes [%20].  "é" becomes [%C3%A9]
    and "à" becomes [%C3%A0], and both appear in the URL built for the
    phrase "clé à molette". *)
Theorem encode_query_percent_encodes :
  (∀ s : str, valid_text s →
     ∃ encoded parts,
       encode_query s = Ok encoded ∧
       Forall2 (λ c part, percent_encode_char c = Ok part) s parts ∧
       encoded = mjoin parts ∧
       Forall quoted_char encoded) ∧
  encode_query (lit " ") = Ok (lit "%20") ∧
  ¬ quoted_char 0x20 ∧ ¬ quoted_char 0x2B ∧
  encode_query (lit "é") = Ok (lit "%C3%A9") ∧
  encode_query (lit "à") = Ok (lit "%C3%A0") ∧
  ∃ link,
    build_marketplace_link (get_marketplace_for_type (lit "tools")).1
      (get_marketplace_for_type (lit "tools")).2 (lit "clé à molette")
    = Ok link ∧
    contains (lit "%C3%A9") (url link) = true ∧
    contains (lit "%C3%A0") (url link) = true.
Proof.
  split; [|split; [|split; [|split; [|split; [|split]]]]].
  - intros s Hs.
    destruct (encode_query_by_char s Hs) as (encoded & parts & Henc & Hparts & ->).
    exists (mjoin parts), parts. repeat split; try done.
    destruct (quote_valid s Hs) as (bs & _ & Hbytes & Hquote & _).
    unfold encode_query in Henc. rewrite Hquote in Henc.
    injection Henc as <-. by apply quote_from_bytes_alphabet.
  - by vm_compute.
  - unfold quoted_char. rewrite unreserved_always_safe. by intros [|].
  - unfold quoted_char. rewrite unreserved_always_safe. by intros [|].
  - by vm_compute.
  - by vm_compute.
  - eexists. split; [by vm_compute|]. split; by vm_compute.
Qed.

Lemma encode_query_percent_encodes_witness :
  ∃ encoded parts,
    encode_query (lit "clé à molette") = Ok encoded ∧
    Forall2 (λ c part, percent_encode_char c = Ok part)
            (lit "clé à molette") parts ∧
    encoded = mjoin parts ∧
    Forall quoted_char encoded.
Proof.
  apply (proj1 encode_query_percent_encodes (lit "clé à molette")).
  apply Forall_forall. intros c Hc. apply scalar_valueb_spec.
  revert c Hc. apply Forall_forall. by_evaluation.
Defined.

(** C8.  For every valid phrase text, percent-decoding the encoded query
    gives back the phrase text; and on every route the built URL is the
    template with that encoded query in place of the placeholder. *)
Theorem encoded_query_round_trip (q : str) :
  valid_text q →
  ∃ encoded,
    encode_query q = Ok encoded ∧
    unquote encoded = Some q ∧
    ∀ category, ∃ pre suf link,
      splits_at_placeholder (get_marketplace_for_type category).2 pre suf ∧
      build_marketplace_link (get_marketplace_for_type category).1
        (get_marketplace_for_type category).2 q = Ok link ∧
      url link = pre ++ encoded ++ suf.
Proof.
  intros Hq. destruct (quote_valid q Hq) as (bs & Hbs & Hbytes & Hquote & Hdec).
  exists (quote_from_bytes bs). split; [done|]. split.
  - unfold unquote. rewrite utf8_encode_ascii.
    + by rewrite unquote_quote_from_bytes.
    + eapply Forall_impl; [by apply quote_from_bytes_alphabet|].
      apply quoted_char_ascii.
  - intros category.
    destruct (route_well_formed category) as (Hname & pre & suf & Hsplit).
    destruct (build_marketplace_link_ok _ _ pre suf q Hname Hsplit Hq)
      as (encoded & Henc & Hlink).
    unfold encode_query in Henc. rewrite Hquote in Henc. injection Henc as <-.
    eexists pre, suf, _. split; [done|]. split; [exact Hlink|done].
Qed.

Lemma encoded_query_round_trip_witness :
  ∃ encoded,
    encode_query (lit "thriller français") = Ok encoded ∧
    unquote encoded = Some (lit "thriller français") ∧
    ∀ category, ∃ pre suf link,
      splits_at_placeholder (get_marketplace_for_type category).2 pre suf ∧
      build_marketplace_link (get_marketplace_for_type category).1
        (get_marketplace_for_type category).2 (lit "thriller français")
      = Ok link ∧
      url link = pre ++ encoded ++ suf.
Proof.
  apply (encoded_query_round_trip (lit "thriller français")).
  apply Forall_forall. intros c Hc. apply scalar_valueb_spec.
  revert c Hc. apply Forall_forall. by_evaluation.
Defined.

Section BuildLinksFacts.

(** What [build_marketplace_links] returns, when it returns: one link
    per phrase of the slice, each built on the route of the category. *)
Lemma build_marketplace_links_inv (analysis : VisionAnalysisResult)
    (max_links : Z) (links : list MarketplaceLink) :
  build_marketplace_links analysis max_links = Ok links →
  Forall2 (λ q link,
             build_marketplace_link
               (get_marketplace_for_type (object_type analysis)).1
               (get_marketplace_for_type (object_type analysis)).2
               (sq_query q) = Ok link)
          (slice_to (search_queries analysis) max_links) links.
Proof.
  unfold build_marketplace_links.
  destruct (get_marketplace_for_type (object_type analysis))
    as [name template].
  intros Hloop. by apply build_loop_inv in Hloop as (links' & -> & Hall).
Qed.

Lemma build_marketplace_links_marketplace (analysis : VisionAnalysisResult)
    (max_links : Z) (links : list MarketplaceLink) :
  build_marketplace_links analysis max_links = Ok links →
  Forall (λ link, marketplace link
                  = (get_marketplace_for_type (object_type analysis)).1)
         links.
Proof.
  intros Hall%build_marketplace_links_inv.
  induction Hall as [|q link qs links Hlink _ IH]; constructor; [|done].
  by apply build_marketplace_link_fields in Hlink as [Hname _].
Qed.

End BuildLinksFacts.

(** C3.  The marketplace lookup never fails.  For a category of the
    routing table ("book" gives abebooks, "clothing" gives vinted) every
    produced link carries the marketplace id of the table entry; for any
    other category (electronics, furniture, tools, general or an unknown
    value) every link carries the default id, leboncoin; and all links
    of one classification carry the same marketplace id. *)
Theorem routing_is_total_and_uniform (analysis : VisionAnalysisResult)
    (max_links : Z) (links : list MarketplaceLink) :
  build_marketplace_links analysis max_links = Ok links →
  (∀ entry, MARKETPLACE_URLS !! object_type analysis = Some entry →
            get_marketplace_for_type (object_type analysis) = entry ∧
            Forall (λ link, marketplace link = entry.1) links) ∧
  (MARKETPLACE_URLS !! object_type analysis = None →
     get_marketplace_for_type (object_type analysis) = DEFAULT_MARKETPLACE ∧
     Forall (λ link, marketplace link = DEFAULT_MARKETPLACE.1) links) ∧
  (∀ link1 link2, link1 ∈ links → link2 ∈ links →
                  marketplace link1 = marketplace link2) ∧
  (∃ template, MARKETPLACE_URLS !! lit "book" = Some (lit "abebooks", template)) ∧
  (∃ template,
     MARKETPLACE_URLS !! lit "clothing" = Some (lit "vinted", template)) ∧
  (∀ category, category ≠ lit "book" → category ≠ lit "clothing" →
               MARKETPLACE_URLS !! category = None) ∧
  Forall (λ category, MARKETPLACE_URLS !! category = None)
         [lit "electronics"; lit "furniture"; lit "tools"; lit "general";
          lit "unknown"] ∧
  DEFAULT_MARKETPLACE.1 = lit "leboncoin".
Proof.
  intros Hlinks%build_marketplace_links_marketplace.
  unfold get_marketplace_for_type in *.
  repeat apply conj.
  - intros entry Hentry. by rewrite Hentry in *.
  - intros Hnone. by rewrite Hnone in *.
  - rewrite Forall_forall in Hlinks. intros link1 link2 H1 H2.
    by rewrite (Hlinks link1 H1), (Hlinks link2 H2).
  - eexists. apply MARKETPLACE_URLS_book.
  - eexists. apply MARKETPLACE_URLS_clothing.
  - apply MARKETPLACE_URLS_other.
  - repeat constructor; apply MARKETPLACE_URLS_other; by_evaluation.
  - reflexivity.
Qed.

Lemma routing_is_total_and_uniform_witness :
  ∃ links,
    build_marketplace_links book_analysis 5 = Ok links ∧
    Forall (λ link, marketplace link = lit "abebooks") links.
Proof.
  eexists. split; [by vm_compute|].
  eapply (proj2 (proj1 (routing_is_total_and_uniform book_analysis 5 _ _)
                   _ MARKETPLACE_URLS_book)).
  Unshelve. by vm_compute.
Defined.

(** C4.  For a classification with at least one phrase, all of them valid
    text, and [max_links] at least 1, [build_marketplace_links] returns
    without error a non-empty list of min(number of phrases, max_links)
    links, and link number [i] is the one built from phrase number [i],
    on the route of the category. *)
Theorem build_marketplace_links_length_and_order
    (analysis : VisionAnalysisResult) (max_links : Z) :
  search_queries analysis ≠ [] →
  (1 ≤ max_links)%Z →
  Forall (λ q, valid_text (sq_query q)) (search_queries analysis) →
  ∃ links,
    build_marketplace_links analysis max_links = Ok links ∧
    links ≠ [] ∧
    length links
    = Nat.min (length (search_queries analysis)) (Z.to_nat max_links) ∧
    ∀ i, (i < length links)%nat →
      ∃ q link,
        search_queries analysis !! i = Some q ∧
        links !! i = Some link ∧
        build_marketplace_link
          (get_marketplace_for_type (object_type analysis)).1
          (get_marketplace_for_type (object_type analysis)).2
          (sq_query q) = Ok link ∧
        query link = sq_query q.
Proof.
  intros Hne Hmax Hvalid.
  assert (Hslice : slice_to (search_queries analysis) max_links
                   = take (Z.to_nat max_links) (search_queries analysis)).
  { unfold slice_to. by destruct (Z.leb_spec 0 max_links); [|lia]. }
  destruct (route_well_formed (object_type analysis))
    as (Hname & pre & suf & Hsplit).
  assert (Hbuilt : Forall (λ q, ∃ link,
      build_marketplace_link
        (get_marketplace_for_type (object_type analysis)).1
        (get_marketplace_for_type (object_type analysis)).2
        (sq_query q) = Ok link)
    (slice_to (search_queries analysis) max_links)).
  { rewrite Hslice. apply Forall_take.
    eapply Forall_impl; [exact Hvalid|]. intros q Hq.
    destruct (build_marketplace_link_ok _ _ pre suf _ Hname Hsplit Hq)
      as (encoded & _ & Hlink).
    eauto. }
  apply (build_loop_ok _ _ _ []) in Hbuilt as (links & Hloop & Hall).
  exists links.
  assert (Hlen : length links
    = Nat.min (length (search_queries analysis)) (Z.to_nat max_links)).
  { apply Forall2_length in Hall. rewrite <- Hall, Hslice, length_take.
    apply Nat.min_comm. }
  split; [|split; [|split; [done|]]].
  - unfold build_marketplace_links.
    by destruct (get_marketplace_for_type (object_type analysis)).
  - intros ->. destruct (search_queries analysis); [done|].
    cbn [length] in Hlen. clear -Hlen Hmax. lia.
  - intros i Hi.
    destruct (lookup_lt_is_Some_2 links i Hi) as [link Hlink].
    destruct (Forall2_lookup_r _ _ _ _ _ Hall Hlink) as (q & Hq & Hbuild).
    exists q, link. rewrite Hslice in Hq.
    apply lookup_take_Some in Hq as [Hq _].
    repeat split; try done.
    by apply build_marketplace_link_fields in Hbuild as [_ Hquery].
Qed.

Lemma build_marketplace_links_length_and_order_witness :
  ∃ links,
    build_marketplace_links tools_analysis 2 = Ok links ∧
    length links = 2%nat.
Proof.
  destruct (build_marketplace_links_length_and_order tools_analysis 2)
    as (links & Hlinks & _ & Hlen & _).
  - discriminate.
  - lia.
  - unfold valid_text. by_evaluation.
  - exists links. split; [exact Hlinks | exact Hlen].
Defined.

(** C10.  With [max_links = 0] the result is the empty list for every
    classification, also one with one to three phrases: the function
    does not enforce the precondition [max_links >= 1] under which a
    non-empty phrase list gives a non-empty link list. *)
Theorem build_marketplace_links_zero (analysis : VisionAnalysisResult) :
  build_marketplace_links analysis 0 = Ok [] ∧
  build_marketplace_links tools_analysis 0 = Ok [] ∧
  length (search_queries tools_analysis) = 3%nat.
Proof.
  split; [|split; [by vm_compute | done]].
  unfold build_marketplace_links.
  by destruct (get_marketplace_for_type (object_type analysis)).
Qed.

(** ** The link validator *)

Section SelectorTableFacts.

Lemma MARKETPLACE_SELECTORS_known (marketplace : str) :
  marketplace ∈ marketplace_literals ↔
  is_Some (MARKETPLACE_SELECTORS !! marketplace).
Proof.
  unfold MARKETPLACE_SELECTORS, marketplace_literals.
  rewrite !elem_of_cons, elem_of_nil.
  destruct (decide (marketplace = lit "abebooks")) as [->|Habebooks].
  { rewrite lookup_insert_eq. split; [done | by left]. }
  rewrite lookup_insert_ne by done.
  destruct (decide (marketplace = lit "vinted")) as [->|Hvinted].
  { rewrite lookup_insert_eq. split; [done | by right; left]. }
  rewrite lookup_insert_ne by done.
  destruct (decide (marketplace = lit "leboncoin")) as [->|Hleboncoin].
  { rewrite lookup_insert_eq. split; [done | by right; right; left]. }
  rewrite lookup_insert_ne by done. rewrite lookup_empty. split.
  - tauto.
  - by intros [? ?].
Qed.

(** The entries of the table all have the same shape. *)
Lemma MARKETPLACE_SELECTORS_shape (marketplace : str)
    (selectors : gmap str selector_value) :
  MARKETPLACE_SELECTORS !! marketplace = Some selectors →
  ∃ phrases css,
    selectors = selectors_of phrases css ∧
    Forall (λ phrase, lower phrase = phrase) phrases.
Proof.
  unfold MARKETPLACE_SELECTORS.
  destruct (decide (marketplace = lit "abebooks")) as [->|Habebooks].
  { rewrite lookup_insert_eq. intros [= <-].
    eexists _, _. split; [done | by_evaluation]. }
  rewrite lookup_insert_ne by done.
  destruct (decide (marketplace = lit "vinted")) as [->|Hvinted].
  { rewrite lookup_insert_eq. intros [= <-].
    eexists _, _. split; [done | by_evaluation]. }
  rewrite lookup_insert_ne by done.
  destruct (decide (marketplace = lit "leboncoin")) as [->|Hleboncoin].
  { rewrite lookup_insert_eq. intros [= <-].
    eexists _, _. split; [done | by_evaluation]. }
  rewrite lookup_insert_ne by done. by rewrite lookup_empty.
Qed.

Lemma selectors_of_no_results_text (phrases : list str) (css : str) :
  selectors_of phrases css !! lit "no_results_text" = Some (PhraseList phrases).
Proof. unfold selectors_of. apply lookup_insert_eq. Qed.

Lemma selectors_of_results_selector (phrases : list str) (css : str) :
  selectors_of phrases css !! lit "results_selector" = Some (Selector css).
Proof.
  unfold selectors_of. rewrite lookup_insert_ne by by_evaluation.
  apply lookup_insert_eq.
Qed.

End SelectorTableFacts.

Section GatherFacts.

(** The loop keeps, in order, the links of the outcomes that [kept]
    keeps. *)
Lemma filter_loop_omap (results : list (result (MarketplaceLink * bool)))
    (valid_links : list MarketplaceLink) :
  filter_loop results valid_links = valid_links ++ omap kept results.
Proof.
  revert valid_links.
  induction results as [|[[link [|]]|e] results IH]; intros valid_links;
    simpl; rewrite ?IH, <- ?app_assoc, ?app_nil_r; done.
Qed.

(** The surviving links of a batch whose tasks answer about their own
    link are a subsequence of the batch. *)
Lemma omap_kept_sublist
    (task : nat → MarketplaceLink → result (MarketplaceLink * bool))
    (links : list MarketplaceLink) :
  (∀ i link link' b, task i link = Ok (link', b) → link' = link) →
  omap kept (imap task links) `sublist_of` links.
Proof.
  revert task. induction links as [|link links IH]; intros task Hsame.
  - constructor.
  - rewrite imap_cons. cbn [omap list_omap].
    assert (Htail : omap kept (imap (task ∘ S) links) `sublist_of` links).
    { apply IH. intros i l l' b. apply Hsame. }
    destruct (task 0%nat link) as [[link' [|]]|e] eqn:Htask; cbn [kept].
    + apply Hsame in Htask as ->. by constructor.
    + by constructor.
    + by constructor.
Qed.

Lemma omap_kept_all
    (task : nat → MarketplaceLink → result (MarketplaceLink * bool))
    (links : list MarketplaceLink) :
  (∀ i link, links !! i = Some link → task i link = Ok (link, true)) →
  omap kept (imap task links) = links.
Proof.
  revert task. induction links as [|link links IH]; intros task Hall;
    [done|].
  rewrite imap_cons. cbn [omap list_omap].
  rewrite (Hall 0%nat link eq_refl). cbn [kept]. f_equal.
  apply IH. intros i l Hl. apply (Hall (S i)), Hl.
Qed.

Lemma omap_kept_none
    (task : nat → MarketplaceLink → result (MarketplaceLink * bool))
    (links : list MarketplaceLink) :
  (∀ i link, links !! i = Some link → kept (task i link) = None) →
  omap kept (imap task links) = [].
Proof.
  revert task. induction links as [|link links IH]; intros task Hall;
    [done|].
  rewrite imap_cons. cbn [omap list_omap].
  rewrite (Hall 0%nat link eq_refl).
  apply IH. intros i l Hl. apply (Hall (S i)), Hl.
Qed.

End GatherFacts.

Section ValidatorFacts.

Variable BeautifulSoup : str → result Soup.
Variable http_get : nat → Q → str → result Response.

(** The verdict of [check_for_results] on a page that parses: "no
    results" exactly when a no-results phrase of the marketplace occurs
    in the lower-cased text. *)
Lemma check_for_results_verdict (html marketplace : str) (soup : Soup) :
  BeautifulSoup html = Ok soup →
  check_for_results BeautifulSoup html marketplace
  = Ok (negb (existsb (λ phrase, contains phrase (lower (get_text soup)))
                      (no_results_text marketplace))).
Proof.
  intros Hsoup. unfold check_for_results, no_results_text. rewrite Hsoup.
  cbn [mbind result_bind]. cbv zeta.
  destruct (MARKETPLACE_SELECTORS !! marketplace) as [selectors|] eqn:Hsel.
  - apply MARKETPLACE_SELECTORS_shape in Hsel as (phrases & css & -> & Hlow).
    cbn [default from_option id option_bind mbind].
    rewrite selectors_of_no_results_text, selectors_of_results_selector.
    cbn [default from_option id].
    replace (existsb (λ phrase, contains (lower phrase) (lower (get_text soup)))
               phrases)
      with (existsb (λ phrase, contains phrase (lower (get_text soup)))
              phrases).
    + destruct (existsb _ phrases); [done|]. cbn [negb].
      destruct (negb _); [|done]. by destruct (0 <? _)%nat.
    + induction Hlow as [|phrase phrases Hphrase _ IH]; [done|].
      simpl. by rewrite Hphrase, IH.
  - cbn [default from_option id option_bind mbind].
    rewrite !lookup_empty. cbn [default from_option id existsb negb].
    by rewrite bool_decide_eq_true_2.
Qed.

(** A task answers about its own link. *)
Lemma validate_single_link_same (i : nat) (link link' : MarketplaceLink)
    (timeout : Q) (has_results : bool) :
  validate_single_link BeautifulSoup http_get i link timeout
  = Ok (link', has_results) →
  link' = link.
Proof.
  unfold validate_single_link, fetch_and_check.
  destruct (http_get i timeout (url link)) as [response|e]; simpl.
  - destruct (raise_for_status response) as [[]|e]; simpl.
    + destruct (check_for_results _ _ _) as [has|e]; simpl.
      * by intros [= <- _].
      * destruct (is_TimeoutException e), (is_Exception e);
          by intros [= <- _].
    + destruct (is_TimeoutException e), (is_Exception e);
        by intros [= <- _].
  - destruct (is_TimeoutException e), (is_Exception e); by intros [= <- _].
Qed.

(** A fetch failure with an exception of class [Exception] is turned
    into "has results". *)
Lemma validate_single_link_fail_open (i : nat) (link : MarketplaceLink)
    (timeout : Q) (e : exn) :
  fetch_failure BeautifulSoup http_get i link timeout e →
  is_Exception e = true →
  validate_single_link BeautifulSoup http_get i link timeout
  = Ok (link, true).
Proof.
  intros Hfail He. unfold validate_single_link, fetch_and_check.
  destruct Hfail as [e Hget | response Hget Hstatus
                    | response e Hget Hstatus Hparse]; rewrite Hget; simpl.
  - rewrite He. by destruct (is_TimeoutException e).
  - unfold raise_for_status.
    destruct (N.leb_spec 200 (status_code response)),
             (N.ltb_spec (status_code response) 300); try lia; done.
  - unfold raise_for_status, check_for_results.
    destruct (N.leb_spec 200 (status_code response)),
             (N.ltb_spec (status_code response) 300); try lia.
    simpl. rewrite Hparse. simpl. rewrite He.
    by destruct (is_TimeoutException e).
Qed.

(** [validate_marketplace_links] in closed form. *)
Lemma validate_marketplace_links_eq (links : list MarketplaceLink)
    (timeout : Q) :
  validate_marketplace_links BeautifulSoup http_get links timeout
  = match omap kept (gather BeautifulSoup http_get links timeout) with
    | [] => take 1 links
    | valid_links => valid_links
    end.
Proof.
  unfold validate_marketplace_links. destruct links as [|first rest].
  - done.
  - rewrite filter_loop_omap. cbn [app lookup list_lookup].
    by destruct (omap kept _).
Qed.

End ValidatorFacts.

(** C1.  [validate_marketplace_links] returns the empty list exactly when
    its input is empty.  When every link of a non-empty batch is
    classified "no results", or its task ends with an exception, the
    result is the list of the first input link alone. *)
Theorem validate_never_empties
    (BeautifulSoup : str → result Soup)
    (http_get : nat → Q → str → result Response)
    (links : list MarketplaceLink) (timeout : Q) :
  (validate_marketplace_links BeautifulSoup http_get links timeout = []
   ↔ links = []) ∧
  ((∀ i link, links !! i = Some link →
      validate_single_link BeautifulSoup http_get i link timeout
      = Ok (link, false)
      ∨ ∃ e, validate_single_link BeautifulSoup http_get i link timeout
             = Raise e) →
   validate_marketplace_links BeautifulSoup http_get links timeout
   = take 1 links).
Proof.
  rewrite validate_marketplace_links_eq. split.
  - destruct links as [|first rest]; [done|].
    cbn [take]. by destruct (omap kept _).
  - intros Hall. unfold gather. rewrite omap_kept_none; [done|].
    intros i link Hlink. by destruct (Hall i link Hlink) as [-> | [e ->]].
Qed.

Lemma validate_never_empties_witness :
  validate_marketplace_links parse_text (serve (lit "Aucun résultat"))
    sample_links 3
  = [sample_link "abebooks" "book1" "https://example.com/1"].
Proof.
  apply (proj2 (validate_never_empties parse_text
                  (serve (lit "Aucun résultat")) sample_links 3)).
  intros [|[|[|i]]] link Hlink; [| | | by destruct i];
    injection Hlink as <-; left; by vm_compute.
Defined.

(** C2.  A fetch failure of one link (time-out, connection error, status
    that is not 2xx, or any other exception of class [Exception] raised
    while fetching or parsing) is not propagated: the task of that link
    returns "has results", and the link is in the result of
    [validate_marketplace_links]. *)
Theorem fetch_failure_fails_open
    (BeautifulSoup : str → result Soup)
    (http_get : nat → Q → str → result Response)
    (links : list MarketplaceLink) (timeout : Q)
    (i : nat) (link : MarketplaceLink) (e : exn) :
  links !! i = Some link →
  fetch_failure BeautifulSoup http_get i link timeout e →
  is_Exception e = true →
  validate_single_link BeautifulSoup http_get i link timeout = Ok (link, true)
  ∧ link ∈ validate_marketplace_links BeautifulSoup http_get links timeout.
Proof.
  intros Hlink Hfail He.
  pose proof (validate_single_link_fail_open _ _ _ _ _ _ Hfail He) as Htask.
  split; [done|].
  assert (Hin : link ∈ omap kept (gather BeautifulSoup http_get links timeout)).
  { apply list_elem_of_omap. exists (Ok (link, true)). split; [|done].
    unfold gather. rewrite <- Htask.
    by apply (elem_of_lookup_imap_2
                (λ i link, validate_single_link _ _ i link timeout)). }
  rewrite validate_marketplace_links_eq.
  destruct (omap kept _); [by apply elem_of_nil in Hin | done].
Qed.

Lemma fetch_failure_fails_open_witness :
  validate_single_link parse_text unreachable 1
    (sample_link "abebooks" "book2" "https://example.com/2") 3
  = Ok (sample_link "abebooks" "book2" "https://example.com/2", true)
  ∧ sample_link "abebooks" "book2" "https://example.com/2"
    ∈ validate_marketplace_links parse_text unreachable sample_links 3.
Proof.
  apply (fetch_failure_fails_open parse_text unreachable sample_links 3 1
           _ TimeoutException).
  - reflexivity.
  - by apply request_fails.
  - reflexivity.
Defined.

(** A cancellation is not of class [Exception]: the task ends with it,
    [gather] hands it over as an outcome, and the loop skips it. *)
Example cancelled_batch :
  validate_single_link parse_text cancelled 0
    (sample_link "abebooks" "book1" "https://example.com/1") 3
  = Raise CancelledError
  ∧ validate_marketplace_links parse_text cancelled sample_links 3
    = [sample_link "abebooks" "book1" "https://example.com/1"].
Proof. split; by vm_compute. Qed.

(** C9.  The result of [validate_marketplace_links] is a subsequence of
    its input: every output link is an input link, in the original
    relative order.  When every link is classified "has results" the
    result is the input list. *)
Theorem validate_preserves_order
    (BeautifulSoup : str → result Soup)
    (http_get : nat → Q → str → result Response)
    (links : list MarketplaceLink) (timeout : Q) :
  validate_marketplace_links BeautifulSoup http_get links timeout
    `sublist_of` links ∧
  ((∀ i link, links !! i = Some link →
      validate_single_link BeautifulSoup http_get i link timeout
      = Ok (link, true)) →
   validate_marketplace_links BeautifulSoup http_get links timeout = links).
Proof.
  rewrite validate_marketplace_links_eq. unfold gather. split.
  - pose proof (omap_kept_sublist
      (λ i link, validate_single_link BeautifulSoup http_get i link timeout)
      links) as Hsub.
    destruct (omap kept _).
    + apply sublist_take.
    + apply Hsub. intros i link link' b. apply validate_single_link_same.
  - intros Hall. rewrite omap_kept_all by done. by destruct links.
Qed.

Lemma validate_preserves_order_witness :
  validate_marketplace_links parse_text (serve (lit "Livre 1")) sample_links 3
  = sample_links.
Proof.
  apply (proj2 (validate_preserves_order parse_text (serve (lit "Livre 1"))
                  sample_links 3)).
  intros [|[|[|i]]] link Hlink; [| | | by destruct i];
    injection Hlink as <-; by vm_compute.
Defined.

(** C5.  On a page that parses, [check_for_results] answers "no results"
    exactly when the lower-cased visible text contains one of the
    no-results phrases of the marketplace, whatever the result-item
    selector matches; it answers "has results" exactly when no such
    phrase occurs, be it that the selector matches an element or that
    neither check fires; and always for a marketplace that is not in the
    table.  The table knows abebooks, vinted and leboncoin. *)
Theorem check_for_results_policy
    (BeautifulSoup : str → result Soup) (html marketplace : str)
    (soup : Soup) :
  BeautifulSoup html = Ok soup →
  (check_for_results BeautifulSoup html marketplace = Ok false ↔
     ∃ phrase, phrase ∈ no_results_text marketplace ∧
               contains phrase (lower (get_text soup)) = true) ∧
  (check_for_results BeautifulSoup html marketplace = Ok true ↔
     ∀ phrase, phrase ∈ no_results_text marketplace →
               contains phrase (lower (get_text soup)) = false) ∧
  (marketplace ∉ marketplace_literals →
     check_for_results BeautifulSoup html marketplace = Ok true) ∧
  (marketplace ∈ marketplace_literals ↔
     is_Some (MARKETPLACE_SELECTORS !! marketplace)) ∧
  no_results_text (lit "abebooks")
  = [lit "aucun résultat"; lit "no results found"; lit "0 résultat"] ∧
  no_results_text (lit "vinted") = [lit "aucun article"; lit "aucun résultat"] ∧
  no_results_text (lit "leboncoin")
  = [lit "aucune annonce"; lit "0 annonce trouvée"; lit "pas de résultat"].
Proof.
  intros Hsoup. rewrite (check_for_results_verdict _ _ _ _ Hsoup).
  repeat apply conj.
  - intros [= Hfound]. apply negb_false_iff, existsb_exists in Hfound.
    destruct Hfound as (phrase & Hin & Hfound).
    exists phrase. by rewrite list_elem_of_In.
  - intros (phrase & Hin & Hfound). f_equal.
    apply negb_false_iff, existsb_exists.
    exists phrase. by rewrite <- list_elem_of_In.
  - intros [= Hnone] phrase Hin. apply negb_true_iff in Hnone.
    apply not_true_is_false. intros Hfound.
    apply not_true_iff_false in Hnone. apply Hnone, existsb_exists.
    exists phrase. by rewrite <- list_elem_of_In.
  - intros Hnone. f_equal. apply negb_true_iff, not_true_is_false.
    intros (phrase & Hin & Hfound)%existsb_exists.
    apply list_elem_of_In, Hnone in Hin. congruence.
  - intros Hunknown. unfold no_results_text.
    destruct (MARKETPLACE_SELECTORS !! marketplace) eqn:Hsel; [|done].
    exfalso. apply Hunknown, MARKETPLACE_SELECTORS_known. by rewrite Hsel.
  - apply MARKETPLACE_SELECTORS_known.
  - apply MARKETPLACE_SELECTORS_known.
  - by vm_compute.
  - by vm_compute.
  - by vm_compute.
Qed.

Lemma check_for_results_policy_witness :
  check_for_results parse_with_item (lit "Aucun article correspondant")
    (lit "vinted") = Ok false.
Proof.
  apply (proj1 (check_for_results_policy parse_with_item
                  (lit "Aucun article correspondant") (lit "vinted")
                  (item_page (lit "Aucun article correspondant")) eq_refl)).
  exists (lit "aucun article"). split; [by_evaluation | by vm_compute].
Defined.

(** C6, as stated, fails: "no results found" is a no-results phrase of
    abebooks only, and a vinted page with that text is classified "has
    results". *)
Lemma no_results_found_not_on_every_marketplace :
  ¬ (∀ (BeautifulSoup : str → result Soup) (html marketplace : str)
       (soup : Soup) (before found after : str),
       marketplace ∈ marketplace_literals →
       BeautifulSoup html = Ok soup →
       get_text soup = before ++ found ++ after →
       lower found = lit "no results found" →
       check_for_results BeautifulSoup html marketplace = Ok false).
Proof.
  intros Hclaim.
  specialize (Hclaim parse_text (lit "No results found") (lit "vinted")
                (text_page (lit "No results found"))
                [] (lit "No results found") []).
  assert (Habsurd : check_for_results parse_text (lit "No results found")
                      (lit "vinted") = Ok false).
  { apply Hclaim; [by_evaluation | done | by vm_compute | by vm_compute]. }
  by vm_compute in Habsurd.
Qed.

(** C6, amended.  On abebooks, a page that parses and whose visible text
    contains "no results found" in any letter case is classified "no
    results", whatever elements the result-item selector matches. *)
Theorem no_results_found_on_abebooks
    (BeautifulSoup : str → result Soup) (html : str) (soup : Soup)
    (before found after : str) :
  BeautifulSoup html = Ok soup →
  get_text soup = before ++ found ++ after →
  lower found = lit "no results found" →
  check_for_results BeautifulSoup html (lit "abebooks") = Ok false.
Proof.
  intros Hsoup Htext Hfound.
  rewrite (check_for_results_verdict _ _ _ _ Hsoup). f_equal.
  apply negb_false_iff, existsb_exists.
  exists (lit "no results found"). split.
  - apply list_elem_of_In. by_evaluation.
  - apply contains_spec. exists (lower before), (lower after).
    by rewrite Htext, !lower_app, Hfound.
Qed.

Lemma no_results_found_on_abebooks_witness :
  check_for_results parse_with_item (lit "Sorry: No Results FOUND here")
    (lit "abebooks") = Ok false.
Proof.
  apply (no_results_found_on_abebooks parse_with_item
           (lit "Sorry: No Results FOUND here")
           (item_page (lit "Sorry: No Results FOUND here"))
           (lit "Sorry: ") (lit "No Results FOUND") (lit " here")).
  - reflexivity.
  - by vm_compute.
  - by vm_compute.
Defined.

(** * Further properties of the link builder *)

Section EncodingFacts.

Lemma utf8_encode_cp_raises (c : N) (e : exn) :
  utf8_encode_cp c = Raise e ↔ e = UnicodeEncodeError ∧ 0xD800 ≤ c ≤ 0xDFFF.
Proof.
  unfold utf8_encode_cp. cases_N; cbn [andb]; split; try done;
    try (intros [_ ?]; lia); try (intros [= <-]; split; [done | lia]);
    by intros [-> _].
Qed.

Lemma utf8_encode_raises (s : str) (e : exn) :
  utf8_encode s = Raise e ↔
  e = UnicodeEncodeError ∧ Exists (λ c, 0xD800 ≤ c ≤ 0xDFFF) s.
Proof.
  revert e. induction s as [|c s IH]; intros e; simpl.
  - split; [done | intros [_ H]; inversion H].
  - rewrite Exists_cons.
    destruct (utf8_encode_cp c) as [bs|e'] eqn:Hc; simpl.
    + assert (Hnot : ¬ (0xD800 ≤ c ≤ 0xDFFF)).
      { intros Hsur.
        pose proof (proj2 (utf8_encode_cp_raises c UnicodeEncodeError)
                      (conj eq_refl Hsur)) as Hraise.
        congruence. }
      destruct (utf8_encode s) as [bs'|e''] eqn:Hs; simpl.
      * split; [done|]. intros [-> [?|Hex]]; [done|].
        by apply (conj eq_refl), IH in Hex.
      * split.
        -- intros [= ->]. destruct (proj1 (IH e) eq_refl) as [-> Hex]. auto.
        -- intros [-> [?|Hex]]; [done|].
           f_equal. by apply (conj eq_refl), IH in Hex as [= ->].
    + apply utf8_encode_cp_raises in Hc as [-> Hc]. split.
      * intros [= <-]. auto.
      * by intros [-> _].
Qed.

(** The length of one character percent-encoded: 1 when it is kept,
    3 to 12 when it is escaped. *)
Lemma percent_encode_char_length (c : N) (part : list N) :
  percent_encode_char c = Ok part →
  (unreserved c = true ∧ part = [c]) ∨
  (unreserved c = false ∧ (3 ≤ length part ≤ 12)%nat).
Proof.
  unfold percent_encode_char. destruct (unreserved c); [intros [= <-]; by left|].
  right. split; [done|]. revert H. unfold utf8_encode_cp.
  cases_N; cbn [andb]; simpl; intros [= <-]; simpl; lia.
Qed.

Lemma encoded_parts_length (s : str) (parts : list (list N)) :
  Forall2 (λ c part, percent_encode_char c = Ok part) s parts →
  (length s ≤ length (mjoin parts) ≤ 12 * length s)%nat ∧
  (length (mjoin parts) = length s → Forall (λ c, unreserved c = true) s).
Proof.
  induction 1 as [|c part s parts Hpart _ [IHlen IHeq]]; simpl.
  - split; [lia | constructor].
  - rewrite length_app.
    apply percent_encode_char_length in Hpart as [[Hc ->] | [Hc Hlen]].
    + simpl. split; [lia|]. intros Heq. constructor; [done|].
      apply IHeq. lia.
    + split; [lia|]. intros Heq. lia.
Qed.

Lemma encode_query_unreserved (s : str) :
  Forall (λ c, unreserved c = true) s → encode_query s = Ok s.
Proof.
  intros Hs. unfold encode_query, quote.
  assert (Hascii : Forall (λ c, c < 0x80) s).
  { eapply Forall_impl; [exact Hs|]. intros c Hc. cbv beta in Hc.
    rewrite unreserved_always_safe in Hc. by apply always_safe_ascii. }
  rewrite utf8_encode_ascii by done. simpl. unfold mret, result_ret. f_equal.
  clear Hascii. induction Hs as [|c s Hc _ IH]; [done|].
  change (quote_from_bytes (c :: s)) with (quoter c ++ quote_from_bytes s).
  unfold quoter. rewrite <- unreserved_always_safe, Hc, IH. done.
Qed.

End EncodingFacts.

Section BuilderMoreFacts.

Lemma encode_query_decodes (s : str) :
  valid_text s → ∃ encoded, encode_query s = Ok encoded ∧ unquote encoded = Some s.
Proof.
  intros Hs. destruct (quote_valid s Hs) as (bs & Hbs & Hbytes & Hquote & Hdec).
  exists (quote_from_bytes bs). split; [done|].
  unfold unquote. rewrite utf8_encode_ascii.
  - by rewrite unquote_quote_from_bytes.
  - eapply Forall_impl; [by apply quote_from_bytes_alphabet|].
    apply quoted_char_ascii.
Qed.

(** A printable ASCII character other than the space. *)
Lemma quoted_char_printable (c : N) : quoted_char c → 0x21 ≤ c ≤ 0x7E.
Proof.
  intros [Hc | ->]; [|lia]. rewrite unreserved_always_safe in Hc.
  revert Hc. unfold always_safe. cases_N; simpl; try done; lia.
Qed.

(** The fixed parts of the three templates are printable ASCII without
    spaces. *)
Lemma route_printable (c : str) :
  ∃ pre suf,
    splits_at_placeholder (get_marketplace_for_type c).2 pre suf ∧
    Forall (λ c, 0x21 ≤ c ≤ 0x7E) (pre ++ suf).
Proof.
  unfold get_marketplace_for_type, splits_at_placeholder.
  destruct (MARKETPLACE_URLS !! c) as [entry|] eqn:Hentry.
  - apply MARKETPLACE_URLS_Some in Hentry as Hc. destruct Hc as [-> | ->].
    + rewrite MARKETPLACE_URLS_book in Hentry. injection Hentry as <-.
      exists (lit "https://www.abebooks.fr/servlet/SearchResults?kn="),
             (lit "&sts=t").
      split; [split; [reflexivity | split; by_evaluation] | by_evaluation].
    + rewrite MARKETPLACE_URLS_clothing in Hentry. injection Hentry as <-.
      exists (lit "https://www.vinted.fr/catalog?search_text="), [].
      split; [split; [reflexivity | split; by_evaluation] | by_evaluation].
  - exists (lit "https://www.leboncoin.fr/recherche?text="), [].
    split; [split; [reflexivity | split; by_evaluation] | by_evaluation].
Qed.

Lemma sample_valid_text (s : str) :
  forallb scalar_valueb s = true → valid_text s.
Proof.
  intros Hs. apply Forall_forall. intros c Hc. apply scalar_valueb_spec.
  rewrite forallb_forall in Hs. by apply Hs, list_elem_of_In.
Qed.

End BuilderMoreFacts.

(** X1.  [encode_query] raises exactly on text that holds a surrogate
    code point, and the exception is then [UnicodeEncodeError]. *)
Theorem encode_query_raises_iff_surrogate (s : str) (e : exn) :
  encode_query s = Raise e ↔
  e = UnicodeEncodeError ∧ Exists (λ c, 0xD800 ≤ c ≤ 0xDFFF) s.
Proof.
  rewrite <- utf8_encode_raises. unfold encode_query, quote.
  destruct (utf8_encode s); simpl; split; done.
Qed.

(** X2.  On valid text [encode_query] is injective: two different
    phrases never have the same encoded query. *)
Theorem encode_query_injective (s t : str) :
  valid_text s → valid_text t → s ≠ t → encode_query s ≠ encode_query t.
Proof.
  intros Hs Ht Hne Heq. apply Hne.
  destruct (encode_query_decodes s Hs) as (es & Hes & Hdec_s).
  destruct (encode_query_decodes t Ht) as (et & Het & Hdec_t).
  rewrite Hes, Het in Heq. injection Heq as ->. congruence.
Qed.

Lemma encode_query_injective_witness :
  encode_query (lit "a b") ≠ encode_query (lit "a%20b").
Proof.
  apply encode_query_injective.
  - apply sample_valid_text. by vm_compute.
  - apply sample_valid_text. by vm_compute.
  - by_evaluation.
Defined.

(** X3.  The encoded query of valid text is at least as long as the text
    and at most twelve times as long. *)
Theorem encode_query_length_bounds (s : str) :
  valid_text s →
  ∃ encoded, encode_query s = Ok encoded ∧
             (length s ≤ length encoded ≤ 12 * length s)%nat.
Proof.
  intros Hs.
  destruct (encode_query_by_char s Hs) as (encoded & parts & Henc & Hparts & ->).
  exists (mjoin parts). split; [done|]. by apply encoded_parts_length.
Qed.

Lemma encode_query_length_bounds_witness :
  ∃ encoded, encode_query (lit "clé à molette") = Ok encoded ∧
             (length (lit "clé à molette") ≤ length encoded
              ≤ 12 * length (lit "clé à molette"))%nat.
Proof.
  apply encode_query_length_bounds. apply sample_valid_text. by vm_compute.
Defined.

(** X4.  [encode_query] returns valid text unchanged exactly when every
    character of it is unreserved. *)
Theorem encode_query_identity_iff_unreserved (s : str) :
  valid_text s →
  (encode_query s = Ok s ↔ Forall (λ c, unreserved c = true) s).
Proof.
  intros Hs. split; [|apply encode_query_unreserved].
  intros Hid.
  destruct (encode_query_by_char s Hs) as (encoded & parts & Henc & Hparts & ->).
  rewrite Hid in Henc. injection Henc as Henc.
  apply (encoded_parts_length _ _ Hparts). by rewrite <- Henc.
Qed.

Lemma encode_query_identity_iff_unreserved_witness :
  encode_query (lit "livre") = Ok (lit "livre").
Proof.
  apply (encode_query_identity_iff_unreserved (lit "livre")).
  - apply sample_valid_text. by vm_compute.
  - by_evaluation.
Defined.

(** X5.  With a negative [max_links] the slice drops phrases from the
    end: the result has as many links as there are phrases less
    [-max_links] (none when there are not that many), built from the
    leading phrases in order. *)
Theorem build_marketplace_links_negative_max
    (analysis : VisionAnalysisResult) (max_links : Z) :
  (max_links < 0)%Z →
  Forall (λ q, valid_text (sq_query q)) (search_queries analysis) →
  ∃ links,
    build_marketplace_links analysis max_links = Ok links ∧
    length links
    = (length (search_queries analysis) - Z.to_nat (- max_links))%nat ∧
    Forall2 (λ q link, query link = sq_query q)
            (take (length links) (search_queries analysis)) links.
Proof.
  intros Hmax Hvalid.
  set (n := (length (search_queries analysis) - Z.to_nat (- max_links))%nat).
  assert (Hslice : slice_to (search_queries analysis) max_links
                   = take n (search_queries analysis)).
  { unfold slice_to. by destruct (Z.leb_spec 0 max_links); [lia|]. }
  destruct (route_well_formed (object_type analysis))
    as (Hname & pre & suf & Hsplit).
  assert (Hbuilt : Forall (λ q, ∃ link,
      build_marketplace_link
        (get_marketplace_for_type (object_type analysis)).1
        (get_marketplace_for_type (object_type analysis)).2
        (sq_query q) = Ok link)
    (slice_to (search_queries analysis) max_links)).
  { rewrite Hslice. apply Forall_take.
    eapply Forall_impl; [exact Hvalid|]. intros q Hq.
    destruct (build_marketplace_link_ok _ _ pre suf _ Hname Hsplit Hq)
      as (encoded & _ & Hlink).
    eauto. }
  apply (build_loop_ok _ _ _ []) in Hbuilt as (links & Hloop & Hall).
  exists links.
  assert (Hlen : length links = n).
  { apply Forall2_length in Hall. rewrite <- Hall, Hslice, length_take.
    subst n. clear. lia. }
  split; [|split; [done|]].
  - unfold build_marketplace_links.
    by destruct (get_marketplace_for_type (object_type analysis)).
  - rewrite Hlen, <- Hslice. eapply Forall2_impl; [exact Hall|].
    intros q link Hlink.
    by apply build_marketplace_link_fields in Hlink as [_ Hquery].
Qed.

Lemma build_marketplace_links_negative_max_witness :
  ∃ links,
    build_marketplace_links tools_analysis (-1) = Ok links ∧
    length links = 2%nat.
Proof.
  destruct (build_marketplace_links_negative_max tools_analysis (-1))
    as (links & Hlinks & Hlen & _).
  - lia.
  - unfold valid_text. by_evaluation.
  - exists links. split; [exact Hlinks | exact Hlen].
Defined.

(** X6.  For a valid phrase and a template with one placeholder,
    [build_marketplace_link] returns a link exactly when the marketplace
    name is one of abebooks, vinted and leboncoin; with any other name
    the construction of the link raises [ValidationError]. *)
Theorem build_marketplace_link_checks_marketplace
    (name template pre suf q : str) :
  splits_at_placeholder template pre suf →
  valid_text q →
  (name ∈ marketplace_literals →
     ∃ link, build_marketplace_link name template q = Ok link) ∧
  (name ∉ marketplace_literals →
     build_marketplace_link name template q = Raise ValidationError).
Proof.
  intros Hsplit Hq. split.
  - intros Hname.
    destruct (build_marketplace_link_ok _ _ _ _ _ Hname Hsplit Hq)
      as (encoded & _ & Hlink). eauto.
  - intros Hname. destruct Hsplit as (-> & Hpre & Hsuf).
    destruct (quote_valid q Hq) as (bs & _ & _ & Hquote & _).
    unfold build_marketplace_link, encode_query. rewrite Hquote.
    cbn [mbind result_bind]. rewrite format_query_template by done.
    unfold new_MarketplaceLink. by rewrite bool_decide_eq_false_2.
Qed.

Lemma build_marketplace_link_checks_marketplace_witness :
  build_marketplace_link (lit "ebay") (lit "https://www.ebay.fr/sch?q={query}")
    (lit "livre policier") = Raise ValidationError.
Proof.
  apply (build_marketplace_link_checks_marketplace (lit "ebay")
           (lit "https://www.ebay.fr/sch?q={query}")
           (lit "https://www.ebay.fr/sch?q=") [] (lit "livre policier")).
  - split; [reflexivity | split; by_evaluation].
  - unfold valid_text. by_evaluation.
  - by_evaluation.
Defined.

(** X7.  Every URL that [build_marketplace_links] returns for phrases of
    valid text consists of printable ASCII characters only, without a
    space. *)
Theorem built_urls_are_printable_ascii
    (analysis : VisionAnalysisResult) (max_links : Z)
    (links : list MarketplaceLink) :
  Forall (λ q, valid_text (sq_query q)) (search_queries analysis) →
  build_marketplace_links analysis max_links = Ok links →
  Forall (λ link, Forall (λ c, 0x21 ≤ c ≤ 0x7E) (url link)) links.
Proof.
  intros Hvalid Hlinks%build_marketplace_links_inv.
  assert (Hslice : Forall (λ q, valid_text (sq_query q))
                     (slice_to (search_queries analysis) max_links)).
  { unfold slice_to. destruct (0 <=? max_links)%Z; by apply Forall_take. }
  destruct (route_well_formed (object_type analysis)) as (Hname & _).
  destruct (route_printable (object_type analysis))
    as (pre & suf & Hsplit & Hprint).
  apply Forall_app in Hprint as [Hpre Hsuf].
  induction Hlinks as [|q link qs links Hlink _ IH]; [constructor|].
  apply Forall_cons in Hslice as [Hq Hqs].
  constructor; [|by apply IH].
  destruct (build_marketplace_link_ok _ _ pre suf _ Hname Hsplit Hq)
    as (encoded & Henc & Hbuilt).
  rewrite Hbuilt in Hlink. injection Hlink as <-. cbn [url].
  destruct (quote_valid _ Hq) as (bs & _ & Hbytes & Hquote & _).
  unfold encode_query in Henc. rewrite Hquote in Henc. injection Henc as <-.
  repeat (apply Forall_app; split); try done.
  eapply Forall_impl; [by apply quote_from_bytes_alphabet|].
  apply quoted_char_printable.
Qed.

Lemma built_urls_are_printable_ascii_witness :
  ∃ links,
    build_marketplace_links tools_analysis 5 = Ok links ∧
    Forall (λ link, Forall (λ c, 0x21 ≤ c ≤ 0x7E) (url link)) links.
Proof.
  eexists. split; [by vm_compute|].
  eapply (built_urls_are_printable_ascii tools_analysis 5).
  - unfold valid_text. by_evaluation.
  - by vm_compute.
Defined.

(** X8.  On one route, two different valid phrases never get the same
    URL. *)
Theorem built_urls_distinguish_phrases
    (category q1 q2 : str) (link1 link2 : MarketplaceLink) :
  valid_text q1 → valid_text q2 → q1 ≠ q2 →
  build_marketplace_link (get_marketplace_for_type category).1
    (get_marketplace_for_type category).2 q1 = Ok link1 →
  build_marketplace_link (get_marketplace_for_type category).1
    (get_marketplace_for_type category).2 q2 = Ok link2 →
  url link1 ≠ url link2.
Proof.
  intros Hq1 Hq2 Hne Hlink1 Hlink2 Hurl. apply Hne.
  destruct (route_well_formed category) as (Hname & pre & suf & Hsplit).
  destruct (build_marketplace_link_ok _ _ pre suf _ Hname Hsplit Hq1)
    as (e1 & He1 & Hb1).
  destruct (build_marketplace_link_ok _ _ pre suf _ Hname Hsplit Hq2)
    as (e2 & He2 & Hb2).
  rewrite Hb1 in Hlink1. rewrite Hb2 in Hlink2.
  injection Hlink1 as <-. injection Hlink2 as <-. cbn [url] in Hurl.
  apply app_inv_head, app_inv_tail in Hurl as ->.
  destruct (encode_query_decodes q1 Hq1) as (d1 & Hd1 & Hdec1).
  destruct (encode_query_decodes q2 Hq2) as (d2 & Hd2 & Hdec2).
  congruence.
Qed.

Lemma built_urls_distinguish_phrases_witness :
  ∃ link1 link2,
    build_marketplace_link (get_marketplace_for_type (lit "book")).1
      (get_marketplace_for_type (lit "book")).2 (lit "a b") = Ok link1 ∧
    build_marketplace_link (get_marketplace_for_type (lit "book")).1
      (get_marketplace_for_type (lit "book")).2 (lit "a+b") = Ok link2 ∧
    url link1 ≠ url link2.
Proof.
  eexists _, _. split; [by vm_compute|]. split; [by vm_compute|].
  eapply (built_urls_distinguish_phrases (lit "book") (lit "a b") (lit "a+b")).
  - unfold valid_text. by_evaluation.
  - unfold valid_text. by_evaluation.
  - by_evaluation.
  - by vm_compute.
  - by vm_compute.
Defined.

(** * Further properties of the link validator *)

(** X9.  A task answers "no results" only on positive evidence: the
    request succeeded with a 2xx status, the body parsed, and the
    lower-cased text of the page contains a no-results phrase of the
    marketplace of the link; and in that case it does answer so. *)
Theorem validate_single_link_false_iff_evidence
    (BeautifulSoup : str → result Soup)
    (http_get : nat → Q → str → result Response)
    (i : nat) (link : MarketplaceLink) (timeout : Q) :
  validate_single_link BeautifulSoup http_get i link timeout = Ok (link, false)
  ↔ ∃ response soup phrase,
      http_get i timeout (url link) = Ok response ∧
      200 ≤ status_code response < 300 ∧
      BeautifulSoup (text response) = Ok soup ∧
      phrase ∈ no_results_text (marketplace link) ∧
      contains phrase (lower (get_text soup)) = true.
Proof.
  unfold validate_single_link, fetch_and_check, raise_for_status. split.
  - destruct (http_get i timeout (url link)) as [response|e]; simpl;
      [|by destruct (is_TimeoutException e), (is_Exception e)].
    destruct (N.leb_spec 200 (status_code response)),
             (N.ltb_spec (status_code response) 300); simpl; try done.
    destruct (BeautifulSoup (text response)) as [soup|e] eqn:Hsoup.
    + rewrite (check_for_results_verdict _ _ _ _ Hsoup). simpl.
      intros [= Hfound]. apply negb_false_iff, existsb_exists in Hfound.
      destruct Hfound as (phrase & Hin & Hfound).
      exists response, soup, phrase. rewrite list_elem_of_In.
      repeat split; try done; lia.
    + unfold check_for_results. rewrite Hsoup. simpl.
      by destruct (is_TimeoutException e), (is_Exception e).
  - intros (response & soup & phrase & -> & Hstatus & Hsoup & Hin & Hfound).
    simpl.
    destruct (N.leb_spec 200 (status_code response)),
             (N.ltb_spec (status_code response) 300); try lia.
    simpl. rewrite (check_for_results_verdict _ _ _ _ Hsoup). simpl.
    do 3 f_equal. apply negb_false_iff, existsb_exists.
    exists phrase. by rewrite <- list_elem_of_In.
Qed.

(** X10.  A batch of one link always comes back as it is, whatever the
    network and the page say. *)
Theorem validate_singleton
    (BeautifulSoup : str → result Soup)
    (http_get : nat → Q → str → result Response)
    (link : MarketplaceLink) (timeout : Q) :
  validate_marketplace_links BeautifulSoup http_get [link] timeout = [link].
Proof.
  rewrite validate_marketplace_links_eq. unfold gather. simpl.
  destruct (validate_single_link BeautifulSoup http_get 0 link timeout)
    as [[link' [|]]|e] eqn:Htask; simpl; try done.
  by apply validate_single_link_same in Htask as ->.
Qed.

(** X11.  Every link of the result is accounted for: its task returned
    "has results", or it is the first input link and no task of the
    batch returned "has results". *)
Theorem validate_output_justified
    (BeautifulSoup : str → result Soup)
    (http_get : nat → Q → str → result Response)
    (links : list MarketplaceLink) (timeout : Q) (link : MarketplaceLink) :
  link ∈ validate_marketplace_links BeautifulSoup http_get links timeout →
  (∃ i, links !! i = Some link ∧
        validate_single_link BeautifulSoup http_get i link timeout
        = Ok (link, true))
  ∨ (links !! 0%nat = Some link ∧
     ∀ i link', links !! i = Some link' →
       validate_single_link BeautifulSoup http_get i link' timeout
       ≠ Ok (link', true)).
Proof.
  rewrite validate_marketplace_links_eq. unfold gather.
  destruct (omap kept _) as [|kept_link kept_links] eqn:Hkept.
  - intros Hin. right. destruct links as [|first rest];
      [by apply elem_of_nil in Hin|].
    cbn [take] in Hin. apply list_elem_of_singleton in Hin as ->.
    split; [done|]. intros i link' Hlink' Htask.
    assert (Hin : link' ∈ omap kept
      (imap (λ i link, validate_single_link BeautifulSoup http_get i link timeout)
            (first :: rest))).
    { apply list_elem_of_omap. exists (Ok (link', true)). split; [|done].
      rewrite <- Htask.
      by apply (elem_of_lookup_imap_2
                  (λ i link, validate_single_link _ _ i link timeout)). }
    rewrite Hkept in Hin. by apply elem_of_nil in Hin.
  - rewrite <- Hkept. intros Hin. left.
    apply list_elem_of_omap in Hin as (r & Hr & Hkeep).
    apply elem_of_lookup_imap in Hr as (i & link' & -> & Hlink').
    destruct (validate_single_link BeautifulSoup http_get i link' timeout)
      as [[l [|]]|e] eqn:Htask; try done.
    injection Hkeep as ->.
    apply validate_single_link_same in Htask as Hsame. subst link'.
    by exists i.
Qed.

Lemma validate_output_justified_witness :
  (∃ i, sample_links !! i
        = Some (sample_link "abebooks" "book1" "https://example.com/1") ∧
        validate_single_link parse_text (serve (lit "Aucun résultat")) i
          (sample_link "abebooks" "book1" "https://example.com/1") 3
        = Ok (sample_link "abebooks" "book1" "https://example.com/1", true))
  ∨ (sample_links !! 0%nat
     = Some (sample_link "abebooks" "book1" "https://example.com/1") ∧
     ∀ i link', sample_links !! i = Some link' →
       validate_single_link parse_text (serve (lit "Aucun résultat")) i
         link' 3
       ≠ Ok (link', true)).
Proof.
  apply (validate_output_justified parse_text (serve (lit "Aucun résultat"))
           sample_links 3).
  assert (Hout : validate_marketplace_links parse_text
                   (serve (lit "Aucun résultat")) sample_links 3
                 = [sample_link "abebooks" "book1" "https://example.com/1"])
    by (by vm_compute).
  rewrite Hout. constructor.
Defined.

(** * Uploads: magic numbers *)

Section MagicFacts.

Lemma startswith_take (magic data : list N) (n : nat) :
  (length magic ≤ n)%nat →
  startswith magic (take n data) = startswith magic data.
Proof.
  revert data n. induction magic as [|a magic IH]; intros data n Hn; [done|].
  destruct data as [|b data], n as [|n]; simpl in *; try done; try lia.
  f_equal. apply IH. lia.
Qed.

Lemma first_magic_take (data : list N) :
  first_magic (take 8 data) IMAGE_MAGIC_NUMBERS
  = first_magic data IMAGE_MAGIC_NUMBERS.
Proof.
  unfold IMAGE_MAGIC_NUMBERS. cbn [first_magic].
  rewrite !startswith_take by (vm_compute; lia). done.
Qed.

Lemma first_magic_Some (data : list N) (table : list (list N * str))
    (mime : str) :
  first_magic data table = Some mime →
  ∃ magic rest, (magic, mime) ∈ table ∧ data = magic ++ rest.
Proof.
  induction table as [|[magic mime'] table IH]; simpl; [done|].
  destruct (startswith magic data) eqn:Hstart.
  - intros [= <-]. apply startswith_spec in Hstart as [rest ->].
    exists magic, rest. split; [constructor | done].
  - intros (m & rest & Hin & ->)%IH. exists m, rest. split; [by right | done].
Qed.

(** No signature of the table is a prefix of data that starts with
    another one with a different type. *)
Lemma first_magic_complete (magic rest mime : list N) :
  (magic, mime) ∈ IMAGE_MAGIC_NUMBERS →
  first_magic (magic ++ rest) IMAGE_MAGIC_NUMBERS = Some mime.
Proof.
  unfold IMAGE_MAGIC_NUMBERS. rewrite !elem_of_cons, elem_of_nil.
  intros [[= -> ->] | [[= -> ->] | [[= -> ->] | [[= -> ->] | [[= -> ->] | []]]]]];
    reflexivity.
Qed.

Lemma first_magic_None_not_riff (header : list N) :
  first_magic header IMAGE_MAGIC_NUMBERS = None →
  take 4 header ≠ bytes_of_string "RIFF".
Proof.
  intros Hnone Hriff.
  rewrite <- (take_drop 4 header), Hriff in Hnone.
  rewrite (first_magic_complete (bytes_of_string "RIFF") _ (lit "image/webp"))
    in Hnone; [done|].
  unfold IMAGE_MAGIC_NUMBERS. do 2 right. left.
Qed.

(** The verdict is the one of the loop over the table. *)
Lemma validate_image_magic_numbers_verdict (file : UploadFile) :
  (validate_image_magic_numbers file).1
  = match first_magic (drop (position file) (content file))
            IMAGE_MAGIC_NUMBERS with
    | Some mime_type => Return mime_type
    | None => Throw (ImageValidationError InvalidMagicNumbers)
    end.
Proof.
  unfold validate_image_magic_numbers, file_read. cbn [position content].
  rewrite first_magic_take.
  destruct (first_magic (drop _ _) _) eqn:Hmagic; [done|].
  rewrite <- first_magic_take in Hmagic.
  apply first_magic_None_not_riff in Hmagic.
  rewrite bool_decide_eq_false_2 by done. done.
Qed.

End MagicFacts.

(** X12.  [validate_image_magic_numbers] accepts a file exactly when the
    bytes from the read position on start with one of the five
    signatures of the table (JPEG, PNG, RIFF, GIF87a, GIF89a), and
    returns the type listed with that signature; any other file is
    refused with [ImageValidationError].  In particular every file that
    starts with [RIFF] is accepted as WebP, whatever bytes follow. *)
Theorem magic_numbers_accept_iff_signature (file : UploadFile) :
  (∀ mime_type,
     (validate_image_magic_numbers file).1 = Return mime_type ↔
     ∃ magic rest,
       (magic, mime_type) ∈ IMAGE_MAGIC_NUMBERS ∧
       drop (position file) (content file) = magic ++ rest) ∧
  (∀ e, (validate_image_magic_numbers file).1 = Throw e →
        e = ImageValidationError InvalidMagicNumbers) ∧
  (∀ rest, drop (position file) (content file) = bytes_of_string "RIFF" ++ rest →
           (validate_image_magic_numbers file).1 = Return (lit "image/webp")).
Proof.
  rewrite validate_image_magic_numbers_verdict. repeat apply conj.
  - intros mime_type. split.
    + destruct (first_magic _ _) eqn:Hmagic; [|done].
      intros [= ->]. by apply first_magic_Some in Hmagic.
    + intros (magic & rest & Hin & ->).
      by rewrite (first_magic_complete _ _ _ Hin).
  - intros e. by destruct (first_magic _ _); [|intros [= <-]].
  - intros rest ->.
    rewrite (first_magic_complete (bytes_of_string "RIFF") _ (lit "image/webp"));
      [done|].
    unfold IMAGE_MAGIC_NUMBERS. do 2 right. left.
Qed.

Lemma magic_numbers_accept_iff_signature_witness :
  (validate_image_magic_numbers
     {| filename := Some (lit "sound.webp");
        content := bytes_of_string "RIFF....WAVEfmt ";
        position := 0 |}).1
  = Return (lit "image/webp").
Proof.
  apply (proj2 (proj2 (magic_numbers_accept_iff_signature _))
           (bytes_of_string "....WAVEfmt ")).
  reflexivity.
Defined.

(** X13.  Whatever the verdict and wherever the read position was,
    [validate_image_magic_numbers] leaves the file rewound to its start,
    with its name and bytes untouched. *)
Theorem magic_numbers_rewind_file (file : UploadFile) :
  (validate_image_magic_numbers file).2 = file_seek 0 file.
Proof.
  unfold validate_image_magic_numbers, file_read, file_seek.
  cbn [filename content position].
  destruct (first_magic _ _); [done|].
  destruct (_ && _); [|done]. by destruct (bool_decide _).
Qed.

(** * Paths and media types *)

Section PathFacts.

Lemma split_on_nonempty (sep : N) (s : str) : split_on sep s ≠ [].
Proof.
  induction s as [|c s IH]; simpl; [done|].
  destruct (c =? sep); [done|]. by destruct (split_on sep s).
Qed.

Lemma split_on_no_sep (sep : N) (s : str) : sep ∉ s → split_on sep s = [s].
Proof.
  induction s as [|c s IH]; simpl; [done|].
  intros Hnot. apply not_elem_of_cons in Hnot as [Hne Hnot].
  destruct (N.eqb_spec c sep); [done|]. by rewrite IH.
Qed.

(** Splitting at a separator splits the pieces. *)
Lemma split_on_app (sep : N) (a b : str) :
  split_on sep (a ++ sep :: b) = split_on sep a ++ split_on sep b.
Proof.
  induction a as [|c a IH]; simpl.
  - by rewrite N.eqb_refl.
  - destruct (c =? sep); [by rewrite IH|]. rewrite IH.
    pose proof (split_on_nonempty sep a).
    by destruct (split_on sep a).
Qed.

Lemma path_parts_file (name : str) : file_name name → path_parts name = [name].
Proof.
  intros (Hne & Hdot & Hsep). unfold path_parts.
  rewrite split_on_no_sep by done.
  rewrite filter_cons_True by done. done.
Qed.

Lemma path_parts_dir_file (dir name : str) :
  file_name name →
  path_parts (dir ++ 0x2F :: name) = path_parts dir ++ [name].
Proof.
  intros Hname. unfold path_parts. rewrite split_on_app, filter_app.
  f_equal. by apply path_parts_file.
Qed.

Lemma path_parts_trailing_sep (dir : str) :
  path_parts (dir ++ [0x2F]) = path_parts dir.
Proof.
  unfold path_parts. rewrite split_on_app, filter_app. simpl.
  rewrite filter_cons_False, filter_nil, app_nil_r; [done|].
  unfold kept_component. tauto.
Qed.

Lemma rfind_last (c : N) (a e : str) :
  c ∉ e → rfind c (a ++ c :: e) = Some (length a).
Proof.
  intros Hnot. induction a as [|x a IH]; simpl.
  - assert (Hnone : rfind c e = None).
    { clear -Hnot. induction e as [|y e IH]; simpl; [done|].
      apply not_elem_of_cons in Hnot as [Hne Hnot]. rewrite IH by done.
      by destruct (N.eqb_spec y c). }
    by rewrite Hnone, N.eqb_refl.
  - by rewrite IH.
Qed.

Lemma rfind_None (c : N) (s : str) : c ∉ s → rfind c s = None.
Proof.
  induction s as [|y s IH]; simpl; [done|].
  intros Hnot. apply not_elem_of_cons in Hnot as [Hne Hnot].
  rewrite IH by done. by destruct (N.eqb_spec y c).
Qed.

(** The suffix of [stem.e] is [.e]. *)
Lemma suffix_of_name_ext (stem e : str) :
  stem ≠ [] → e ≠ [] → 0x2E ∉ e →
  suffix_of_name (stem ++ 0x2E :: e) = 0x2E :: e.
Proof.
  intros Hstem He Hdot. unfold suffix_of_name. rewrite rfind_last by done.
  rewrite length_app. cbn [length].
  destruct stem as [|x stem]; [done|]. destruct e as [|y e]; [done|].
  cbn [length].
  replace (0 <? S (length stem))%nat with true
    by (symmetry; apply Nat.ltb_lt; lia).
  replace (S (length stem) <? S (length stem) + S (S (length e)) - 1)%nat
    with true by (symmetry; apply Nat.ltb_lt; lia).
  cbn [andb].
  rewrite drop_app_length'; [done|]. done.
Qed.

(** A name that is all suffix, as [.png], has no suffix. *)
Lemma suffix_of_name_hidden (e : str) :
  0x2E ∉ e → suffix_of_name (0x2E :: e) = [].
Proof.
  intros Hdot. unfold suffix_of_name.
  pose proof (rfind_last 0x2E [] e Hdot) as Hfind. cbn [app length] in Hfind.
  by rewrite Hfind.
Qed.

Lemma suffix_of_name_no_dot (name : str) :
  0x2E ∉ name → suffix_of_name name = [].
Proof. intros Hdot. unfold suffix_of_name. by rewrite rfind_None. Qed.

(** The final component of [prefix ++ name], for a prefix that is empty
    or a directory with its slash. *)
Lemma path_name_file (prefix name : str) :
  prefix = [] ∨ last prefix = Some 0x2F →
  file_name name →
  path_name (prefix ++ name) = name.
Proof.
  intros Hprefix Hname. unfold path_name.
  destruct Hprefix as [-> | Hlast].
  - rewrite app_nil_l, path_parts_file by done. done.
  - apply last_Some in Hlast as [dir ->].
    rewrite <- app_assoc. cbn [app].
    rewrite path_parts_dir_file by done. by rewrite last_snoc.
Qed.

Lemma MEDIA_TYPE_MAP_values (ext media_type : str) :
  MEDIA_TYPE_MAP !! ext = Some media_type → media_type ≠ [].
Proof.
  unfold MEDIA_TYPE_MAP. intros Hget.
  repeat (apply lookup_insert_Some in Hget as [[_ <-] | [_ Hget]];
          [by_evaluation|]).
  by rewrite lookup_empty in Hget.
Qed.

Lemma get_media_type_suffix (image_path : str) :
  get_media_type image_path
  = match MEDIA_TYPE_MAP !! lower (suffix image_path) with
    | Some media_type => Return media_type
    | None =>
        Throw (VisionAPIError
                 (UnsupportedImageFormat (lower (suffix image_path))))
    end.
Proof.
  unfold get_media_type.
  destruct (MEDIA_TYPE_MAP !! _) as [media_type|] eqn:Hget; [|done].
  apply MEDIA_TYPE_MAP_values in Hget. by rewrite bool_decide_eq_false_2.
Qed.

End PathFacts.

Section MediaTypeFacts.

Lemma MEDIA_TYPE_MAP_lookup (ext media_type : str) :
  MEDIA_TYPE_MAP !! ext = Some media_type ↔
  (ext, media_type)
  ∈ [(lit ".jpg", lit "image/jpeg"); (lit ".jpeg", lit "image/jpeg");
     (lit ".png", lit "image/png"); (lit ".webp", lit "image/webp");
     (lit ".gif", lit "image/gif")].
Proof.
  unfold MEDIA_TYPE_MAP. rewrite !elem_of_cons, elem_of_nil. split.
  - intros Hget.
    repeat (apply lookup_insert_Some in Hget as [[<- <-] | [_ Hget]];
            [tauto|]).
    by rewrite lookup_empty in Hget.
  - intros [[= -> ->] | [[= -> ->] | [[= -> ->] | [[= -> ->] | [[= -> ->] | []]]]]];
      by vm_compute.
Qed.

Lemma file_name_with_ext (stem e : str) :
  e ≠ [] → 0x2F ∉ stem ++ e → file_name (stem ++ 0x2E :: e).
Proof.
  intros He Hsep. apply not_elem_of_app in Hsep as [Hstem Hsep].
  repeat split.
  - by destruct stem.
  - destruct stem as [|x [|y stem]]; [|done..]. by destruct e.
  - intros [Hin | Hin]%elem_of_app; [done|].
    apply elem_of_cons in Hin as [Hin | Hin]; [lia | done].
Qed.

End MediaTypeFacts.



(** X15.  A file name that is nothing but an extension, as [.png], has no
    suffix for [pathlib]: [get_media_type] raises [VisionAPIError] for
    it, also when the extension is a supported one. *)
Theorem get_media_type_needs_stem (prefix e : str) :
  prefix = [] ∨ last prefix = Some 0x2F →
  e ≠ [] → 0x2F ∉ e → 0x2E ∉ e →
  get_media_type (prefix ++ 0x2E :: e)
  = Throw (VisionAPIError (UnsupportedImageFormat [])).
Proof.
  intros Hprefix He Hsep Hdot.
  rewrite get_media_type_suffix. unfold suffix.
  rewrite path_name_file; [|done|].
  - by rewrite suffix_of_name_hidden.
  - repeat split; [done | by destruct e|].
    intros [Hin | Hin]%elem_of_cons; [lia | done].
Qed.

Lemma get_media_type_needs_stem_witness :
  get_media_type (lit "uploads/.png")
  = Throw (VisionAPIError (UnsupportedImageFormat [])).
Proof.
  apply (get_media_type_needs_stem (lit "uploads/") (lit "png"));
    by_evaluation.
Defined.


(** * The JSON text of a reply *)

Section JsonTextFacts.

Lemma skip_spaces_suffix (s : str) : ∃ spaces, s = spaces ++ skip_spaces s.
Proof.
  induction s as [|c s [spaces IH]]; simpl.
  - by exists [].
  - destruct (is_space c); [|by exists []].
    exists (c :: spaces). simpl. by f_equal.
Qed.

Lemma skip_spaces_app (spaces s : str) :
  Forall (λ c, is_space c = true) spaces →
  skip_spaces (spaces ++ s) = skip_spaces s.
Proof. induction 1 as [|c spaces Hc _ IH]; simpl; [done|]. by rewrite Hc. Qed.

Lemma skip_spaces_head (c : N) (s : str) :
  is_space c = false → skip_spaces (c :: s) = c :: s.
Proof. intros Hc. simpl. by rewrite Hc. Qed.

Lemma strip_infix (text : str) : ∃ a b, text = a ++ strip text ++ b.
Proof.
  unfold strip.
  destruct (skip_spaces_suffix text) as [a Ha].
  destruct (skip_spaces_suffix (reverse (skip_spaces text))) as [b Hb].
  exists a, (reverse b). rewrite Ha at 1. f_equal.
  rewrite <- reverse_app, <- Hb. by rewrite reverse_involutive.
Qed.

Lemma lazy_group_prefix (body group : str) :
  lazy_group body = Some group →
  ∃ mid rest, group = mid ++ [0x7D] ∧ body = group ++ rest.
Proof.
  revert group. induction body as [|c body IH]; intros group; simpl; [done|].
  destruct ((c =? 0x7D) && _) eqn:Hclose.
  - intros [= <-]. apply andb_true_iff in Hclose as [->%N.eqb_eq _].
    by exists [], body.
  - destruct (lazy_group body) as [g|]; simpl; [|done].
    intros [= <-]. destruct (IH g eq_refl) as (mid & rest & -> & ->).
    exists (c :: mid), rest. done.
Qed.

Lemma fenced_tail_prefix (rest0 group : str) :
  match skip_spaces rest0 with
  | c :: body => if c =? 0x7B then cons c <$> lazy_group body else None
  | [] => None
  end = Some group →
  ∃ mid spaces rest,
    group = 0x7B :: mid ++ [0x7D] ∧ rest0 = spaces ++ group ++ rest.
Proof.
  destruct (skip_spaces_suffix rest0) as [spaces Hspaces].
  destruct (skip_spaces rest0) as [|c body]; [done|].
  destruct (N.eqb_spec c 0x7B) as [->|]; [|done].
  destruct (lazy_group body) as [g|] eqn:Hg; simpl; [|done].
  intros [= <-]. apply lazy_group_prefix in Hg as (mid & rest & -> & ->).
  exists mid, spaces, rest. split; [done | exact Hspaces].
Qed.

Lemma fenced_group_prefix (after_fence group : str) :
  fenced_group after_fence = Some group →
  ∃ mid before rest,
    group = 0x7B :: mid ++ [0x7D] ∧ after_fence = before ++ group ++ rest.
Proof.
  unfold fenced_group. destruct (startswith (lit "json") after_fence).
  - intros (mid & spaces & rest & -> & Hdrop)%fenced_tail_prefix.
    exists mid, (take 4 after_fence ++ spaces), rest. split; [done|].
    rewrite <- (take_drop 4 after_fence) at 1.
    rewrite Hdrop, <- !app_assoc. done.
  - intros (mid & spaces & rest & -> & ->)%fenced_tail_prefix.
    by exists mid, spaces, rest.
Qed.

Lemma search_fenced_cons (c : N) (text : str) :
  search_fenced (c :: text)
  = match
      (if startswith fence (c :: text)
       then fenced_group (drop 3 (c :: text)) else None)
    with
    | Some group => Some group
    | None => search_fenced text
    end.
Proof. reflexivity. Qed.

Lemma search_fenced_infix (text group : str) :
  search_fenced text = Some group →
  ∃ mid before rest,
    group = 0x7B :: mid ++ [0x7D] ∧ text = before ++ group ++ rest.
Proof.
  induction text as [|c text IH]; [done|]. rewrite search_fenced_cons.
  destruct (startswith fence (c :: text)) eqn:Hfence.
  - destruct (fenced_group (drop 3 (c :: text))) as [g|] eqn:Hhere.
    + intros [= <-].
      apply fenced_group_prefix in Hhere as (mid & before & rest & -> & Hdrop).
      exists mid, (take 3 (c :: text) ++ before), rest. split; [done|].
      rewrite <- (take_drop 3 (c :: text)) at 1.
      rewrite Hdrop, <- !app_assoc. done.
    + intros (mid & before & rest & -> & ->)%IH.
      exists mid, (c :: before), rest. done.
  - intros (mid & before & rest & -> & ->)%IH.
    exists mid, (c :: before), rest. done.
Qed.

Lemma longest_to_brace_prefix (s m : str) :
  longest_to_brace s = Some m →
  ∃ mid rest, m = mid ++ [0x7D] ∧ s = m ++ rest ∧ 0x7D ∉ rest.
Proof.
  revert m. induction s as [|c s IH]; intros m; simpl; [done|].
  destruct (longest_to_brace s) as [m'|] eqn:Hs.
  - intros [= <-]. destruct (IH m' eq_refl) as (mid & rest & -> & -> & Hrest).
    exists (c :: mid), rest. done.
  - destruct (N.eqb_spec c 0x7D) as [->|]; [|done].
    intros [= <-]. exists [], s. repeat split.
    clear -Hs. induction s as [|x s IH]; [by apply not_elem_of_nil|].
    simpl in Hs. destruct (longest_to_brace s); [done|].
    destruct (N.eqb_spec x 0x7D); [done|].
    apply not_elem_of_cons. split; [done|]. by apply IH.
Qed.

Lemma longest_to_brace_None (s : str) :
  longest_to_brace s = None ↔ 0x7D ∉ s.
Proof.
  induction s as [|c s IH]; simpl.
  - split; [intros _; apply not_elem_of_nil | done].
  - rewrite not_elem_of_cons.
    destruct (longest_to_brace s) as [m|].
    + split; [done|]. intros [_ Hs]. by apply IH in Hs.
    + destruct (N.eqb_spec c 0x7D) as [->|Hne]; split; try done.
      * by intros [? _].
      * intros _. split; [done|]. by apply IH.
Qed.

(** The longest prefix that ends with a brace, when the text has a
    brace after which none follows. *)
Lemma longest_to_brace_last (mid rest : str) :
  0x7D ∉ rest → longest_to_brace (mid ++ 0x7D :: rest) = Some (mid ++ [0x7D]).
Proof.
  intros Hrest. induction mid as [|c mid IH]; simpl.
  - apply longest_to_brace_None in Hrest. by rewrite Hrest.
  - by rewrite IH.
Qed.

Lemma search_object_infix (text m : str) :
  search_object text = Some m →
  ∃ mid before rest,
    m = 0x7B :: mid ++ [0x7D] ∧ text = before ++ m ++ rest ∧
    (0x7B ∉ before) ∧ (0x7D ∉ rest).
Proof.
  induction text as [|c text IH]; simpl; [done|].
  destruct (N.eqb_spec c 0x7B) as [->|Hc].
  - destruct (longest_to_brace text) as [m'|] eqn:Hm; simpl.
    + intros [= <-].
      apply longest_to_brace_prefix in Hm as (mid & rest & -> & -> & Hrest).
      exists mid, [], rest. repeat split; try done. apply not_elem_of_nil.
    + intros Hsearch. exfalso.
      apply IH in Hsearch as (mid & before & rest & -> & -> & _).
      apply longest_to_brace_None in Hm. apply Hm.
      rewrite !elem_of_app, !elem_of_cons, elem_of_app, elem_of_cons. tauto.
  - intros (mid & before & rest & -> & -> & Hbefore & Hrest)%IH.
    exists mid, (c :: before), rest. repeat split; try done.
    apply not_elem_of_cons. split; [congruence | done].
Qed.

Lemma search_object_complete (before mid rest : str) :
  0x7B ∉ before → 0x7D ∉ rest →
  search_object (before ++ 0x7B :: mid ++ 0x7D :: rest)
  = Some (0x7B :: mid ++ [0x7D]).
Proof.
  intros Hbefore Hrest. induction before as [|c before IH]; simpl.
  - by rewrite longest_to_brace_last.
  - apply not_elem_of_cons in Hbefore as [Hc Hbefore].
    destruct (N.eqb_spec c 0x7B); [congruence|]. by apply IH.
Qed.

Lemma search_object_None (text : str) :
  search_object text = None →
  ¬ ∃ a b c, text = a ++ 0x7B :: b ++ 0x7D :: c.
Proof.
  induction text as [|x text IH]; simpl.
  - intros _ (a & b & c & Heq). by destruct a.
  - intros Hnone (a & b & c & Heq).
    destruct (N.eqb_spec x 0x7B) as [->|Hx].
    + destruct (longest_to_brace text) as [m|] eqn:Hm; [done|].
      apply longest_to_brace_None in Hm. apply Hm.
      destruct a as [|y a]; simplify_eq/=;
        rewrite ?elem_of_app, ?elem_of_cons, ?elem_of_app, ?elem_of_cons; tauto.
    + destruct a as [|y a]; simplify_eq/=.
      apply (IH Hnone). eauto.
Qed.

End JsonTextFacts.

Section JsonTextMoreFacts.

Lemma search_fenced_skip (pre text : str) :
  0x60 ∉ pre → search_fenced (pre ++ text) = search_fenced text.
Proof.
  induction pre as [|c pre IH]; [done|].
  intros [Hc Hpre]%not_elem_of_cons.
  cbn [app]. rewrite search_fenced_cons.
  replace (startswith fence (c :: pre ++ text)) with false; [by apply IH|].
  unfold fence. cbn [startswith]. by destruct (N.eqb_spec 0x60 c).
Qed.

Lemma search_fenced_no_backquote (text : str) :
  0x60 ∉ text → search_fenced text = None.
Proof.
  intros Htext. rewrite <- (app_nil_r text). by rewrite search_fenced_skip.
Qed.

Lemma not_fence_after_body (mid rest : str) :
  0x60 ∉ mid → startswith fence (skip_spaces (mid ++ 0x7D :: rest)) = false.
Proof.
  induction mid as [|c mid IH]; [done|].
  intros [Hc Hmid]%not_elem_of_cons. cbn [app skip_spaces].
  destruct (is_space c); [by apply IH|].
  unfold fence. cbn [startswith]. by destruct (N.eqb_spec 0x60 c).
Qed.

Lemma lazy_group_closing (mid spaces post : str) :
  0x60 ∉ mid → Forall (λ c, is_space c = true) spaces →
  lazy_group (mid ++ 0x7D :: spaces ++ fence ++ post) = Some (mid ++ [0x7D]).
Proof.
  intros Hmid Hspaces. induction mid as [|c mid IH].
  - cbn [app lazy_group]. rewrite skip_spaces_app by done. done.
  - apply not_elem_of_cons in Hmid as [Hc Hmid].
    cbn [app lazy_group]. rewrite not_fence_after_body by done.
    rewrite andb_false_r, IH by done. done.
Qed.

Lemma fenced_group_block (label spaces1 mid spaces2 post : str) :
  label = [] ∨ label = lit "json" →
  Forall (λ c, is_space c = true) spaces1 →
  Forall (λ c, is_space c = true) spaces2 →
  0x60 ∉ mid →
  fenced_group (label ++ spaces1 ++ 0x7B :: mid ++ 0x7D :: spaces2 ++ fence ++ post)
  = Some (0x7B :: mid ++ [0x7D]).
Proof.
  intros Hlabel Hs1 Hs2 Hmid. unfold fenced_group.
  assert (Hrest :
    (if startswith (lit "json")
          (label ++ spaces1 ++ 0x7B :: mid ++ 0x7D :: spaces2 ++ fence ++ post)
     then drop 4 (label ++ spaces1 ++ 0x7B :: mid ++ 0x7D :: spaces2 ++ fence ++ post)
     else label ++ spaces1 ++ 0x7B :: mid ++ 0x7D :: spaces2 ++ fence ++ post)
    = spaces1 ++ 0x7B :: mid ++ 0x7D :: spaces2 ++ fence ++ post).
  { destruct Hlabel as [-> | ->]; [|done].
    cbn [app]. destruct Hs1 as [|c spaces1 Hc _]; [done|].
    cbn [app]. change (lit "json") with [0x6A; 0x73; 0x6F; 0x6E].
    cbn [startswith]. destruct (N.eqb_spec 0x6A c) as [<-|]; [done|]. done. }
  rewrite Hrest, skip_spaces_app by done.
  rewrite skip_spaces_head by done.
  rewrite N.eqb_refl, lazy_group_closing by done. done.
Qed.

Lemma search_fenced_at_fence (after group : str) :
  fenced_group after = Some group →
  search_fenced (fence ++ after) = Some group.
Proof.
  intros Hgroup. unfold fence. cbn [app]. rewrite search_fenced_cons.
  unfold fence. cbn [startswith N.eqb Pos.eqb andb drop].
  rewrite drop_0. by rewrite Hgroup.
Qed.

End JsonTextMoreFacts.

(** X16.  [_extract_json_from_response] never invents text: what it
    returns is one contiguous piece of the reply. *)
Theorem extract_json_is_infix (text : str) :
  ∃ before after, text = before ++ _extract_json_from_response text ++ after.
Proof.
  unfold _extract_json_from_response.
  destruct (search_fenced text) as [group|] eqn:Hfenced.
  { apply search_fenced_infix in Hfenced as (_ & before & rest & _ & ->). eauto. }
  destruct (search_object text) as [m|] eqn:Hobject.
  { apply search_object_infix in Hobject as (_ & before & rest & _ & -> & _).
    eauto. }
  apply strip_infix.
Qed.

(** X17.  When the reply has an opening brace with a closing brace
    somewhere after it, the extracted text starts with [{] and ends with
    [}]; when it has not, the extracted text is the reply stripped of
    surrounding white space. *)
Theorem extract_json_braces_or_stripped (text : str) :
  ((∃ a b c, text = a ++ 0x7B :: b ++ 0x7D :: c) →
   ∃ mid, _extract_json_from_response text = 0x7B :: mid ++ [0x7D]) ∧
  (¬ (∃ a b c, text = a ++ 0x7B :: b ++ 0x7D :: c) →
   _extract_json_from_response text = strip text).
Proof.
  unfold _extract_json_from_response. split.
  - intros Hbraces.
    destruct (search_fenced text) as [group|] eqn:Hfenced.
    { apply search_fenced_infix in Hfenced as (mid & _ & _ & -> & _). eauto. }
    destruct (search_object text) as [m|] eqn:Hobject.
    { apply search_object_infix in Hobject as (mid & _ & _ & -> & _). eauto. }
    by apply search_object_None in Hobject.
  - intros Hnone.
    destruct (search_fenced text) as [group|] eqn:Hfenced.
    { apply search_fenced_infix in Hfenced as (mid & before & rest & -> & ->).
      exfalso. apply Hnone. exists before, mid, rest.
      cbn [app]. by rewrite <- app_assoc. }
    destruct (search_object text) as [m|] eqn:Hobject; [|done].
    apply search_object_infix in Hobject as (mid & before & rest & -> & -> & _).
    exfalso. apply Hnone. exists before, mid, rest.
    cbn [app]. by rewrite <- app_assoc.
Qed.

Lemma extract_json_braces_or_stripped_witness :
  ∃ mid,
    _extract_json_from_response (lit "Voici: {x} et {y}. Fin")
    = 0x7B :: mid ++ [0x7D].
Proof.
  apply (proj1 (extract_json_braces_or_stripped _)).
  exists (lit "Voici: "), (lit "x"), (lit " et {y}. Fin"). reflexivity.
Defined.

(** X18.  In a reply without any backquote, the extracted text runs from
    the first opening brace to the last closing brace: prose before and
    after a JSON object is dropped, the object is returned whole. *)
Theorem extract_json_object_in_prose (before mid after : str) :
  0x7B ∉ before → 0x7D ∉ after →
  0x60 ∉ before ++ 0x7B :: mid ++ 0x7D :: after →
  _extract_json_from_response (before ++ 0x7B :: mid ++ 0x7D :: after)
  = 0x7B :: mid ++ [0x7D].
Proof.
  intros Hbefore Hafter Hquote. unfold _extract_json_from_response.
  rewrite search_fenced_no_backquote by done.
  by rewrite search_object_complete.
Qed.

Lemma extract_json_object_in_prose_witness :
  _extract_json_from_response (lit "Result: {'a': {'b': 1}} done")
  = lit "{'a': {'b': 1}}".
Proof.
  apply (extract_json_object_in_prose (lit "Result: ")
           (lit "'a': {'b': 1}") (lit " done")); by_evaluation.
Defined.

(** X19.  A fenced block wins: when the first backquotes of the reply
    open a fence, with or without the label [json], around an object
    that holds no backquote, the extracted text is that object, whatever
    prose and braces stand before the fence or after the closing one. *)
Theorem extract_json_fenced_block
    (pre label spaces1 mid spaces2 post : str) :
  0x60 ∉ pre →
  label = [] ∨ label = lit "json" →
  Forall (λ c, is_space c = true) spaces1 →
  Forall (λ c, is_space c = true) spaces2 →
  0x60 ∉ mid →
  _extract_json_from_response
    (pre ++ fence ++ label ++ spaces1 ++ 0x7B :: mid ++ 0x7D :: spaces2
         ++ fence ++ post)
  = 0x7B :: mid ++ [0x7D].
Proof.
  intros Hpre Hlabel Hs1 Hs2 Hmid. unfold _extract_json_from_response.
  rewrite search_fenced_skip by done.
  by rewrite (search_fenced_at_fence _ _
                (fenced_group_block label spaces1 mid spaces2 post
                   Hlabel Hs1 Hs2 Hmid)).
Qed.

Lemma extract_json_fenced_block_witness :
  _extract_json_from_response (lit "Voici {le} resultat:
```json
{'object_type': 'book'}
```
Fin {}")
  = lit "{'object_type': 'book'}".
Proof.
  apply (extract_json_fenced_block (lit "Voici {le} resultat:
") (lit "json") [0x0A] (lit "'object_type': 'book'") [0x0A] (lit "
Fin {}")); by_evaluation.
Defined.

(** * Image analysis *)

Section ResizeFacts.

(** Four characters for every three bytes, the last group padded. *)
Lemma length_b64encode (bs : list N) :
  length (b64encode bs) = (4 * ((length bs + 2) / 3))%nat.
Proof.
  assert (Hall : ∀ bs : list N,
    length (b64encode bs) = (4 * ((length bs + 2) / 3))%nat ∧
    (∀ a, length (b64encode (a :: bs))
          = (4 * ((length (a :: bs) + 2) / 3))%nat) ∧
    (∀ a b, length (b64encode (a :: b :: bs))
            = (4 * ((length (a :: b :: bs) + 2) / 3))%nat)).
  { clear bs. induction bs as [|c bs (IH0 & IH1 & IH2)].
    - repeat split; intros; reflexivity.
    - split; [apply IH1|]. split; [intros a; apply IH2|].
      intros a b. cbn [b64encode length]. rewrite IH0.
      replace (S (S (S (length bs))) + 2)%nat with (length bs + 2 + 1 * 3)%nat
        by lia.
      rewrite Nat.div_add by lia. lia. }
  apply Hall.
Qed.

End ResizeFacts.

(** X20.  [_resize_image_if_needed] returns an image of at most 3 MiB
    (3145728 bytes) as it is, byte for byte and without calling the
    image library; a larger image always goes to the image library. *)
Theorem resize_threshold (env : Collaborators) (image_bytes : list N)
    (media_type : str) :
  (N.of_nat (length image_bytes) ≤ 3145728 →
   _resize_image_if_needed env image_bytes media_type = Return image_bytes) ∧
  (3145728 < N.of_nat (length image_bytes) →
   _resize_image_if_needed env image_bytes media_type
   = pil_resize env image_bytes media_type).
Proof.
  unfold _resize_image_if_needed, MAX_BASE64_SIZE. rewrite length_b64encode.
  pose proof (Nat.div_mod_eq (length image_bytes + 2) 3) as Hdiv.
  pose proof (Nat.mod_upper_bound (length image_bytes + 2) 3) as Hmod.
  split; intros Hsize.
  - destruct (N.leb_spec (N.of_nat (4 * ((length image_bytes + 2) / 3)))
                (4 * 1024 * 1024)); [done|]. lia.
  - destruct (N.leb_spec (N.of_nat (4 * ((length image_bytes + 2) / 3)))
                (4 * 1024 * 1024)); [|done]. lia.
Qed.

Lemma resize_threshold_witness :
  _resize_image_if_needed (sample_vision [] (Throw JSONDecodeError))
    [0xFF; 0xD8; 0xFF; 0xE0] (lit "image/jpeg")
  = Return [0xFF; 0xD8; 0xFF; 0xE0].
Proof.
  apply (proj1 (resize_threshold _ _ _)). by vm_compute.
Defined.

Section AnalyzeFacts.

Variable env : Collaborators.

Lemma model_validate_json_valid (json_text : str) (a : VisionAnalysisResult) :
  model_validate_json env json_text = Return a →
  json_decode env json_text = Return a ∧ valid_VisionAnalysisResult a = true.
Proof.
  unfold model_validate_json.
  destruct (json_decode env json_text) as [a'|e]; simpl; [|done].
  destruct (valid_VisionAnalysisResult a') eqn:Hvalid; [|done].
  by intros [= <-].
Qed.

Lemma call_vision_api_valid (media_type : str) (image_data : list N)
    (settings : Settings) (a : VisionAnalysisResult) :
  call_vision_api env media_type image_data settings = Return a →
  valid_VisionAnalysisResult a = true.
Proof.
  unfold call_vision_api.
  destruct (messages_create env _ _ _ _) as [[|[text|] blocks]|e]; simpl;
    try done.
  by intros [_ Hvalid]%model_validate_json_valid.
Qed.

Lemma analyze_image_valid (image_path : str) (settings : Settings)
    (a : VisionAnalysisResult) :
  analyze_image env image_path settings = Return a →
  valid_VisionAnalysisResult a = true.
Proof.
  unfold analyze_image.
  destruct (get_media_type image_path) as [media_type|e]; simpl; [|done].
  destruct (read_file env image_path) as [bytes|e]; simpl;
    [|by destruct (is_Exception_error e)].
  destruct (_resize_image_if_needed env bytes media_type) as [bytes'|e];
    simpl; [|done].
  destruct (new_client env _) as [[]|e]; simpl; [|done].
  destruct (call_vision_api env _ _ _) as [a'|e] eqn:Hcall.
  - intros [= <-]. by apply call_vision_api_valid in Hcall.
  - by destruct e; try destruct (is_Exception_error _).
Qed.

End AnalyzeFacts.

(** X21.  [analyze_image] turns the failures of reading the file, of the
    API call, of reading the reply and of parsing it into
    [VisionAPIError]: an exception of class [Exception] that leaves it
    is a [VisionAPIError], unless the image library raised it while
    resizing or the construction of the API client raised it, the two
    calls that stand outside every [try]. *)
Theorem analyze_image_raises_VisionAPIError (env : Collaborators)
    (image_path : str) (settings : Settings) (e : error) :
  analyze_image env image_path settings = Throw e →
  is_Exception_error e = true →
  (∃ message, e = VisionAPIError message)
  ∨ (∃ image_bytes media_type,
       pil_resize env image_bytes media_type = Throw e)
  ∨ new_client env (anthropic_api_key settings) = Throw e.
Proof.
  unfold analyze_image. intros Hraise He.
  destruct (get_media_type image_path) as [media_type|e0] eqn:Hmedia;
    simpl in Hraise.
  2: { injection Hraise as ->. left. revert Hmedia. unfold get_media_type.
       destruct (MEDIA_TYPE_MAP !! _); [destruct (bool_decide _)|];
         intros [= <-]; eauto. }
  destruct (read_file env image_path) as [bytes|e0]; simpl in Hraise.
  2: { destruct (is_Exception_error e0) eqn:He0.
       - injection Hraise as <-. eauto.
       - injection Hraise as ->. congruence. }
  destruct (_resize_image_if_needed env bytes media_type) as [bytes'|e0]
    eqn:Hresize; simpl in Hraise.
  2: { injection Hraise as ->. right. left. revert Hresize.
       unfold _resize_image_if_needed. destruct (_ <=? _); [done|]. eauto. }
  destruct (new_client env _) as [[]|e0] eqn:Hclient; simpl in Hraise.
  2: { injection Hraise as ->. by right; right. }
  left. destruct (call_vision_api env _ _ _) as [a|e0]; [done|].
  destruct e0; try (injection Hraise as <-; eauto);
    simpl in Hraise; try (injection Hraise as <-; eauto).
  destruct (is_Exception e0) eqn:He0; injection Hraise as <-; [eauto|].
  simpl in He. congruence.
Qed.

Lemma analyze_image_raises_VisionAPIError_witness :
  (∃ message,
     VisionAPIError (FailedToAnalyzeImage (VisionAPIError UnexpectedResponseFormat))
     = VisionAPIError message)
  ∨ (∃ image_bytes media_type,
       pil_resize (sample_vision [OtherBlock] (Throw JSONDecodeError))
         image_bytes media_type
       = Throw (VisionAPIError
                  (FailedToAnalyzeImage (VisionAPIError UnexpectedResponseFormat))))
  ∨ new_client (sample_vision [OtherBlock] (Throw JSONDecodeError))
      (anthropic_api_key (default_settings (lit "key")))
    = Throw (VisionAPIError
               (FailedToAnalyzeImage (VisionAPIError UnexpectedResponseFormat))).
Proof.
  apply (analyze_image_raises_VisionAPIError
           (sample_vision [OtherBlock] (Throw JSONDecodeError))
           (lit "uploads/photo.jpg") (default_settings (lit "key"))).
  - by vm_compute.
  - reflexivity.
Defined.

(** X22.  When the file was read and the client built, a reply whose
    first block has no text, or a reply without any block, makes
    [analyze_image] raise a [VisionAPIError] of the "failed to analyze"
    kind: the "unexpected response format" error that the function
    raises itself is caught by its own handler and wrapped. *)
Theorem analyze_image_reply_without_text (env : Collaborators)
    (image_path : str) (settings : Settings)
    (media_type : str) (image_bytes resized : list N) :
  get_media_type image_path = Return media_type →
  read_file env image_path = Return image_bytes →
  _resize_image_if_needed env image_bytes media_type = Return resized →
  new_client env (anthropic_api_key settings) = Return tt →
  (∀ blocks,
     messages_create env (claude_model settings) (system_prompt env)
       media_type (b64encode resized) = Return (OtherBlock :: blocks) →
     analyze_image env image_path settings
     = Throw (VisionAPIError
                (FailedToAnalyzeImage (VisionAPIError UnexpectedResponseFormat))))
  ∧ (messages_create env (claude_model settings) (system_prompt env)
       media_type (b64encode resized) = Return [] →
     analyze_image env image_path settings
     = Throw (VisionAPIError (FailedToAnalyzeImage IndexError))).
Proof.
  intros Hmedia Hread Hresize Hclient. unfold analyze_image, call_vision_api.
  rewrite Hmedia. simpl. rewrite Hread. simpl. rewrite Hresize. simpl.
  rewrite Hclient. simpl. split.
  - intros blocks ->. done.
  - intros ->. done.
Qed.

Lemma analyze_image_reply_without_text_witness :
  analyze_image (sample_vision [] (Throw JSONDecodeError))
    (lit "uploads/photo.jpg") (default_settings (lit "key"))
  = Throw (VisionAPIError (FailedToAnalyzeImage IndexError)).
Proof.
  apply (analyze_image_reply_without_text
           (sample_vision [] (Throw JSONDecodeError))
           (lit "uploads/photo.jpg") (default_settings (lit "key"))
           (lit "image/jpeg") [0xFF; 0xD8; 0xFF; 0xE0] [0xFF; 0xD8; 0xFF; 0xE0]);
    by vm_compute.
Defined.

(** * The analysis endpoint *)

Section EndpointFacts.

Lemma valid_analysis_queries (a : VisionAnalysisResult) :
  valid_VisionAnalysisResult a = true →
  Forall (λ q, valid_text (sq_query q)) (search_queries a) ∧
  (1 ≤ length (search_queries a) ≤ 3)%nat.
Proof.
  unfold valid_VisionAnalysisResult.
  rewrite !andb_true_iff, !Nat.leb_le.
  intros ((((((_ & _) & _) & Hmin) & Hmax) & Hqueries) & _).
  rewrite forallb_forall in Hqueries.
  split; [|lia]. apply Forall_forall. intros q Hq%list_elem_of_In.
  apply Hqueries in Hq. unfold valid_SearchQuery in Hq.
  rewrite !andb_true_iff in Hq. destruct Hq as (((Hq & _) & _) & _).
  by apply sample_valid_text.
Qed.

(** With the default of five links, a valid analysis gets one link for
    each of its phrases. *)
Lemma build_marketplace_links_valid (a : VisionAnalysisResult) :
  valid_VisionAnalysisResult a = true →
  ∃ links,
    build_marketplace_links a 5 = Ok links ∧
    length links = length (search_queries a).
Proof.
  intros [Hvalid Hlen]%valid_analysis_queries.
  destruct (route_well_formed (object_type a)) as (Hname & pre & suf & Hsplit).
  assert (Hbuilt : Forall (λ q, ∃ link,
      build_marketplace_link (get_marketplace_for_type (object_type a)).1
        (get_marketplace_for_type (object_type a)).2 (sq_query q) = Ok link)
    (slice_to (search_queries a) 5)).
  { unfold slice_to. cbn [Z.leb Z.compare]. apply Forall_take.
    eapply Forall_impl; [exact Hvalid|]. intros q Hq.
    destruct (build_marketplace_link_ok _ _ pre suf _ Hname Hsplit Hq)
      as (encoded & _ & Hlink).
    eauto. }
  apply (build_loop_ok _ _ _ []) in Hbuilt as (links & Hloop & Hall).
  exists links. split.
  - unfold build_marketplace_links.
    by destruct (get_marketplace_for_type (object_type a)).
  - apply Forall2_length in Hall. rewrite <- Hall. unfold slice_to.
    cbn [Z.leb Z.compare]. rewrite length_take. clear -Hlen. lia.
Qed.

Lemma validate_marketplace_links_bounds
    (BeautifulSoup : str → result Soup)
    (http_get : nat → Q → str → result Response)
    (links : list MarketplaceLink) (timeout : Q) :
  links ≠ [] →
  validate_marketplace_links BeautifulSoup http_get links timeout ≠ [] ∧
  validate_marketplace_links BeautifulSoup http_get links timeout
    `sublist_of` links.
Proof.
  intros Hne. rewrite validate_marketplace_links_eq. unfold gather.
  pose proof (omap_kept_sublist
    (λ i link, validate_single_link BeautifulSoup http_get i link timeout)
    links) as Hsub.
  destruct (omap kept _).
  - split; [by destruct links | apply sublist_take].
  - split; [done|]. apply Hsub. intros i link link' b.
    apply validate_single_link_same.
Qed.

End EndpointFacts.

(** X23.  [analyze_image_endpoint] lets no exception of class
    [Exception] out but [HTTPException]: with status 400 and the message
    of an upload validation error, with status 503 and a fixed text for
    an error of the vision service, with status 500 and a fixed text for
    anything else. *)
Theorem endpoint_raises_http_exceptions (server : Server)
    (file : UploadFile) (settings : Settings) (e : error) :
  analyze_image_endpoint server file settings = Throw e →
  is_Exception_error e = true →
  (∃ message,
     endpoint_body server file settings = Throw (ImageValidationError message) ∧
     e = HTTPException 400 (ValidationDetail message))
  ∨ (∃ message,
       endpoint_body server file settings = Throw (VisionAPIError message) ∧
       e = HTTPException 503 AnalysisFailedDetail)
  ∨ e = HTTPException 500 UnexpectedErrorDetail.
Proof.
  unfold analyze_image_endpoint.
  destruct (endpoint_body server file settings) as [r|e0]; [done|].
  destruct e0 as [m|m| | | | | | |e']; simpl;
    try (intros [= <-] He; eauto 10; fail).
  destruct (is_Exception e') eqn:He'; intros [= <-] He; [eauto|].
  simpl in He. congruence.
Qed.

Lemma endpoint_raises_http_exceptions_witness :
  (∃ message,
     endpoint_body (sample_server (sample_vision [] (Throw JSONDecodeError)))
       (jpeg_upload "notes.txt") (default_settings (lit "key"))
     = Throw (ImageValidationError message) ∧
     HTTPException 400 (ValidationDetail (InvalidFileType (lit ".txt")))
     = HTTPException 400 (ValidationDetail message))
  ∨ (∃ message,
       endpoint_body (sample_server (sample_vision [] (Throw JSONDecodeError)))
         (jpeg_upload "notes.txt") (default_settings (lit "key"))
       = Throw (VisionAPIError message) ∧
       HTTPException 400 (ValidationDetail (InvalidFileType (lit ".txt")))
       = HTTPException 503 AnalysisFailedDetail)
  ∨ HTTPException 400 (ValidationDetail (InvalidFileType (lit ".txt")))
    = HTTPException 500 UnexpectedErrorDetail.
Proof.
  apply (endpoint_raises_http_exceptions
           (sample_server (sample_vision [] (Throw JSONDecodeError)))
           (jpeg_upload "notes.txt") (default_settings (lit "key"))).
  - by vm_compute.
  - reflexivity.
Defined.



(** X25.  A response of [analyze_image_endpoint] holds an analysis that
    meets the constraints of its model and between one and three links,
    all of the marketplace of the category of the analysis; the links
    are, in order, links that [build_marketplace_links] built for the
    analysis, and all of them when link validation is switched off. *)
Theorem endpoint_response_links (server : Server) (file : UploadFile)
    (settings : Settings) (response : MarketplaceSearchResponse) :
  analyze_image_endpoint server file settings = Return response →
  valid_VisionAnalysisResult (analysis response) = true ∧
  (1 ≤ length (marketplace_links response) ≤ 3)%nat ∧
  Forall (λ link, marketplace link
                  = (get_marketplace_for_type
                       (object_type (analysis response))).1)
         (marketplace_links response) ∧
  ∃ built,
    build_marketplace_links (analysis response) 5 = Ok built ∧
    marketplace_links response `sublist_of` built ∧
    (link_validation_enabled settings = false →
     marketplace_links response = built).
Proof.
  unfold analyze_image_endpoint.
  destruct (endpoint_body server file settings) as [r|e] eqn:Hbody.
  2: { destruct e; try done. by destruct (is_Exception_error _). }
  intros [= <-]. revert Hbody. unfold endpoint_body.
  destruct (_ <? _)%Z; [done|]. destruct (_ =? _)%nat; [done|].
  destruct (filename (file_seek 0 file)) as [name|]; [|done].
  destruct (bool_decide (name = [])); [done|].
  destruct (bool_decide (_ ∈ _)); [|done].
  destruct (validate_image_magic_numbers _) as [[mime|e] file']; simpl;
    [|done].
  destruct (mkdir server _) as [[]|e]; simpl; [|done].
  destruct (write_file server _ _) as [[]|e]; simpl; [|done].
  destruct (analyze_image (vision server) _ settings) as [a|e] eqn:Ha;
    simpl; [|done].
  apply analyze_image_valid in Ha.
  destruct (build_marketplace_links_valid a Ha) as (built & Hbuilt & Hlen).
  rewrite Hbuilt. simpl. unfold new_MarketplaceSearchResponse.
  destruct (_ && _); [|done]. intros [= <-]. cbn [analysis marketplace_links].
  destruct (valid_analysis_queries a Ha) as [_ Hcount].
  assert (Hne : built ≠ []) by (intros ->; simpl in Hlen; lia).
  assert (Hmarket : Forall (λ link, marketplace link
                      = (get_marketplace_for_type (object_type a)).1) built)
    by by apply (build_marketplace_links_marketplace a 5).
  split; [done|].
  destruct (link_validation_enabled settings).
  - destruct (validate_marketplace_links_bounds (parse_html server)
                (fetch server) built
                (inject_Z (link_validation_timeout settings)) Hne)
      as [Hout Hsub].
    pose proof (sublist_length _ _ Hsub) as Hle.
    split; [|split].
    + destruct (validate_marketplace_links _ _ _ _); [done|].
      cbn [length] in *. lia.
    + rewrite Forall_forall in Hmarket. apply Forall_forall.
      intros link Hlink. apply Hmarket. by eapply elem_of_sublist.
    + exists built. by repeat split.
  - split; [lia|]. split; [done|]. exists built. by repeat split.
Qed.

Lemma endpoint_response_links_witness :
  ∃ response,
    analyze_image_endpoint
      (sample_server
         (sample_vision [TextBlock (lit "{'object_type': 'book'}")]
            (Return book_analysis)))
      (jpeg_upload "photo.JPG") (default_settings (lit "key"))
    = Return response ∧
    (1 ≤ length (marketplace_links response) ≤ 3)%nat.
Proof.
  eexists. split; [by vm_compute|].
  eapply (endpoint_response_links
            (sample_server
               (sample_vision [TextBlock (lit "{'object_type': 'book'}")]
                  (Return book_analysis)))
            (jpeg_upload "photo.JPG") (default_settings (lit "key"))).
  by vm_compute.
Defined.

Section JoinFacts.

Lemma split_on_pieces (sep : N) (s : str) :
  Forall (λ piece, sep ∉ piece) (split_on sep s).
Proof.
  induction s as [|c s IH]; simpl.
  - repeat constructor. apply not_elem_of_nil.
  - destruct (N.eqb_spec c sep) as [->|Hc].
    + constructor; [apply not_elem_of_nil | done].
    + destruct (split_on sep s) as [|piece pieces]; simpl.
      * repeat constructor. apply not_elem_of_cons. split; [done|].
        apply not_elem_of_nil.
      * apply Forall_cons in IH as [Hpiece Hpieces].
        constructor; [|done]. apply not_elem_of_cons. split; [done|]. done.
Qed.

Lemma split_on_join (sep : N) (pieces : list (list N)) :
  pieces ≠ [] → Forall (λ piece, sep ∉ piece) pieces →
  split_on sep (join_with sep pieces) = pieces.
Proof.
  intros Hne Hpieces. induction Hpieces as [|piece pieces Hpiece _ IH];
    [done|].
  destruct pieces as [|piece' pieces].
  - simpl. by apply split_on_no_sep.
  - change (join_with sep (piece :: piece' :: pieces))
      with (piece ++ sep :: join_with sep (piece' :: pieces)).
    rewrite split_on_app, IH by done. by rewrite split_on_no_sep.
Qed.

Lemma path_parts_clean (path : str) :
  Forall (λ x, kept_component x ∧ 0x2F ∉ x) (path_parts path).
Proof.
  unfold path_parts. apply Forall_forall. intros x Hx.
  apply list_elem_of_filter in Hx as [Hkept Hx]. split; [done|].
  pose proof (split_on_pieces 0x2F path) as Hall.
  rewrite Forall_forall in Hall. by apply Hall.
Qed.

Lemma path_parts_join (parts : list (list N)) :
  parts ≠ [] → Forall (λ x, kept_component x ∧ 0x2F ∉ x) parts →
  path_parts (join_with 0x2F parts) = parts.
Proof.
  intros Hne Hparts. unfold path_parts. rewrite split_on_join.
  - clear Hne. induction Hparts as [|x parts [Hx _] _ IH]; [done|].
    rewrite filter_cons_True by done. by rewrite IH.
  - done.
  - eapply Forall_impl; [exact Hparts|]. by intros x [_ ?].
Qed.

Lemma path_parts_leading_sep (s : str) :
  path_parts (0x2F :: s) = path_parts s.
Proof.
  unfold path_parts. simpl. rewrite filter_cons_False; [done|].
  unfold kept_component. tauto.
Qed.

Lemma join_with_nonempty (parts : list (list N)) :
  parts ≠ [] → Forall (λ x, kept_component x ∧ 0x2F ∉ x) parts →
  join_with 0x2F parts ≠ [].
Proof.
  intros Hne Hparts. destruct Hparts as [|x parts [[Hx _] _] _]; [done|].
  destruct parts; simpl; [done|]. by destruct x.
Qed.

(** Writing a path out and reading it again gives the same components. *)
Lemma path_parts_path_str (path : str) :
  path_parts path ≠ [] → path_parts (path_str path) = path_parts path.
Proof.
  intros Hne. unfold path_str.
  pose proof (path_parts_clean path) as Hclean.
  pose proof (join_with_nonempty _ Hne Hclean) as Hjoin.
  assert (Hroot : path_root path = [] ∨ path_root path = [0x2F]
                  ∨ path_root path = [0x2F; 0x2F]).
  { unfold path_root.
    destruct path as [|c0 [|c1 [|c2 path]]]; simpl; auto;
      repeat (match goal with
              | |- context [match ?c with _ => _ end] => destruct c
              end; auto). }
  destruct Hroot as [-> | [-> | ->]]; cbn [app].
  - destruct (join_with 0x2F (path_parts path)) eqn:Hj; [done|].
    rewrite <- Hj. by apply path_parts_join.
  - rewrite path_parts_leading_sep. by apply path_parts_join.
  - rewrite !path_parts_leading_sep. by apply path_parts_join.
Qed.

Lemma not_startswith_sep (name : str) :
  0x2F ∉ name → startswith [0x2F] name = false.
Proof.
  destruct name as [|c name]; [done|].
  intros [Hc _]%not_elem_of_cons. cbn [startswith].
  destruct (N.eqb_spec 0x2F c); [congruence | done].
Qed.

Lemma path_parts_posix_join (dir name : str) :
  file_name name →
  ∃ parts, path_parts (posix_join dir name) = parts ++ [name].
Proof.
  intros Hname. pose proof Hname as (_ & _ & Hsep). unfold posix_join.
  rewrite not_startswith_sep by done.
  destruct (decide (dir = [])) as [->|Hdir].
  { exists []. simpl. by apply path_parts_file. }
  rewrite bool_decide_eq_false_2 by done. cbn [orb].
  destruct (decide (last dir = Some 0x2F)) as [Hlast|Hlast].
  - rewrite bool_decide_eq_true_2 by done.
    apply last_Some in Hlast as [dir' ->].
    exists (path_parts dir'). rewrite <- app_assoc. cbn [app].
    by apply path_parts_dir_file.
  - rewrite bool_decide_eq_false_2 by done.
    exists (path_parts dir). by apply path_parts_dir_file.
Qed.

(** The final component of the path of a file in a directory is the name
    of the file. *)
Lemma path_name_joinpath (dir name : str) :
  file_name name → path_name (joinpath dir name) = name.
Proof.
  intros Hname. unfold path_name, joinpath.
  destruct (path_parts_posix_join dir name Hname) as [parts Hparts].
  rewrite path_parts_path_str; rewrite Hparts.
  - by rewrite last_snoc.
  - by destruct parts.
Qed.

Lemma hex_lower_not_sep (n : N) : hex_lower n ≠ 0x2F.
Proof. unfold hex_lower. destruct (N.ltb_spec n 10); lia. Qed.

Lemma uuid_str_file_stem (u : N) : uuid_str u ≠ [] ∧ 0x2F ∉ uuid_str u.
Proof.
  unfold uuid_str.
  assert (Hhex : Forall (λ c, c ≠ 0x2F) (hex_digits 32 u)).
  { unfold hex_digits. apply Forall_fmap, Forall_forall.
    intros i _. apply hex_lower_not_sep. }
  split; [by destruct (take 8 _)|].
  assert (Hall : Forall (λ c, c ≠ 0x2F)
    (take 8 (hex_digits 32 u) ++ 0x2D :: take 4 (drop 8 (hex_digits 32 u))
       ++ 0x2D :: take 4 (drop 12 (hex_digits 32 u))
       ++ 0x2D :: take 4 (drop 16 (hex_digits 32 u))
       ++ 0x2D :: drop 20 (hex_digits 32 u))).
  { repeat first [ apply Forall_app; split
                 | apply Forall_cons; split; [done|]
                 | apply Forall_take
                 | apply Forall_drop ].
    all: done. }
  rewrite Forall_forall in Hall. intros Hin. by apply Hall in Hin.
Qed.

End JoinFacts.

(** X26.  The path under which the endpoint saves an upload keeps the
    extension it was checked with: for every directory, every UUID and
    every extension of the media type table, [get_media_type] of the
    saved path returns the media type of that extension; and the
    extensions allowed by default are all in the table. *)
Theorem saved_upload_has_media_type (dir : str) (u : N)
    (ext media_type : str) :
  MEDIA_TYPE_MAP !! ext = Some media_type →
  get_media_type (joinpath dir (uuid_str u ++ ext)) = Return media_type ∧
  set_Forall (λ ext, is_Some (MEDIA_TYPE_MAP !! ext))
             (allowed_extensions (default_settings [])).
Proof.
  intros Hext. split.
  - destruct (uuid_str_file_stem u) as [Hstem Hsep].
    assert (Hshape : ∃ e, ext = 0x2E :: e ∧ e ≠ [] ∧ (0x2F ∉ e) ∧ (0x2E ∉ e)
                          ∧ lower ext = ext).
    { apply MEDIA_TYPE_MAP_lookup in Hext.
      rewrite !elem_of_cons, elem_of_nil in Hext.
      destruct Hext as [[= -> _] | [[= -> _] | [[= -> _] | [[= -> _]
                       | [[= -> _] | []]]]]];
        eexists; (split; [reflexivity|]); repeat split; by_evaluation. }
    destruct Hshape as (e & -> & He & Hesep & Hedot & Hlower).
    rewrite get_media_type_suffix. unfold suffix.
    rewrite path_name_joinpath.
    + rewrite suffix_of_name_ext by done. by rewrite Hlower, Hext.
    + apply file_name_with_ext; [done|].
      apply not_elem_of_app. by split.
  - by_evaluation.
Qed.

Lemma saved_upload_has_media_type_witness :
  get_media_type
    (joinpath (lit "uploads")
       (uuid_str 0x123e4567e89b42d3a456426614174000 ++ lit ".webp"))
  = Return (lit "image/webp").
Proof.
  apply (saved_upload_has_media_type (lit "uploads")
           0x123e4567e89b42d3a456426614174000 (lit ".webp")
           (lit "image/webp")).
  by vm_compute.
Defined.
